(** * OpenStack nova inventory script (plugins/inventory/nova.py)

    A shallow embedding of the data-reshaping part of the script: the
    sanitizer [to_safe], the dictionary-of-lists helper [push], the address
    selector [get_ips], the flattener [get_metadata] and the mode dispatcher
    at the bottom of the file, followed by the properties the specification
    states about them.

    Conventions.
    - Python 2 [str] values are byte strings: [string], one [ascii] per byte.
    - A Python value that is a [str] or [None] is an [option string].
    - The dictionaries the script only reads ([server.addresses],
      [server.metadata], [vars(server)]) are association lists in the order
      in which Python iterates over them.  The dictionaries it builds and
      prints with [sort_keys=True] are [gmap]s.
    - Code that can raise returns a [result].
    - The configuration is loaded and the client built before the dispatcher
      runs; the dispatcher takes the [prefer_private] flag and the answer of
      [client.servers.list()] as arguments. *)

From stdpp Require Import base option list strings gmap fin_maps.
From Stdlib Require Import Ascii NArith ZArith Bool.
From Stdlib Require String.

(** ** Strings *)

Module Str.

(** The string obtained by replacing every byte [c] by [f c]. *)
Fixpoint map_chars (f : ascii → ascii) (s : string) : string :=
  match s with
  | EmptyString => EmptyString
  | String c s' => String (f c) (map_chars f s')
  end.

(** Every byte of [s] satisfies [p]. *)
Fixpoint all_chars (p : ascii → bool) (s : string) : bool :=
  match s with
  | EmptyString => true
  | String c s' => p c && all_chars p s'
  end.

Definition in_range (lo hi c : ascii) : bool :=
  (N_of_ascii lo <=? N_of_ascii c)%N && (N_of_ascii c <=? N_of_ascii hi)%N.

Definition is_upper (c : ascii) : bool := in_range "A" "Z" c.
Definition is_lower (c : ascii) : bool := in_range "a" "z" c.
Definition is_digit (c : ascii) : bool := in_range "0" "9" c.
Definition is_alnum (c : ascii) : bool := is_upper c || is_lower c || is_digit c.

(** [s.lower()] on a byte string: only A-Z change. *)
Definition lower_char (c : ascii) : ascii :=
  if is_upper c then ascii_of_N (N_of_ascii c + 32) else c.

Definition lower (s : string) : string := map_chars lower_char s.

(** [''.join(l)] *)
Definition join (l : list string) : string := foldr String.append "" l.

(** [needle in hay] for two [str]: [needle] occurs in [hay] as a contiguous
    block, starting at the head of [hay] or further on. *)
Fixpoint contains (hay needle : string) : bool :=
  String.prefix needle hay ||
  match hay with
  | EmptyString => false
  | String _ hay' => contains hay' needle
  end.

(** Truth value of a [str]: only the empty string is false. *)
Definition truthy (s : string) : bool :=
  match s with
  | EmptyString => false
  | String _ _ => true
  end.

(** [needle] occurs in [hay]: the specification's reading of containment. *)
Definition Substring (needle hay : string) : Prop :=
  ∃ pre post, hay = pre +:+ needle +:+ post.

End Str.

(** Truth value of a [str]-or-[None]: [None] and [''] are false. *)
Definition truthy (v : option string) : bool :=
  match v with
  | Some s => Str.truthy s
  | None => false
  end.

(** Truth value of a list: only the empty list is false. *)
Definition nonempty {A} (l : list A) : bool :=
  match l with
  | [] => false
  | _ :: _ => true
  end.

(** [d.get(k)] on a dictionary given in iteration order. *)
Fixpoint dict_get {V} (d : list (string * V)) (k : string) : option V :=
  match d with
  | [] => None
  | (k', v) :: d' => if bool_decide (k' = k) then Some v else dict_get d' k
  end.

(** ** Exceptions *)

Inductive exn := AttributeError | KeyError | TypeError.

Inductive result (A : Type) :=
| Ok (a : A)
| Raise (e : exn).
Arguments Ok {A} a.
Arguments Raise {A} e.

#[global] Instance result_ret : MRet result := λ A a, Ok a.
#[global] Instance result_bind : MBind result := λ A B f m,
  match m with
  | Ok a => f a
  | Raise e => Raise e
  end.

(** A [for] loop whose body may raise: the first exception ends the loop. *)
Fixpoint for_each {S A} (body : S → A → result S) (l : list A) (s : S) : result S :=
  match l with
  | [] => Ok s
  | a :: l' => s' ← body s a; for_each body l' s'
  end.

(** ** Data model *)

(** The values found in a server's attribute bag: what the client decoded
    from the JSON answer, and Python objects such as the manager. *)
#[warnings="-register-all"]
Inductive value :=
| VNone
| VBool (b : bool)
| VInt (n : Z)
| VStr (s : string)
| VList (l : list value)
| VDict (d : list (string * value))
| VObject (repr : string).

(** One entry of a network's address list.  [ext_ips_type] is
    [address.get('OS-EXT-IPS:type', False)]: [None] when the key is missing. *)
Record address := Address {
  addr : string;
  ext_ips_type : option string
}.

(** A server record of the client library.  [addresses] is [None] when the
    attribute is missing ([getattr(server, 'addresses', {})]); [accessIPv4]
    is [None] for Python's [None]; [vars] is [vars(server)]. *)
Record Server := {
  name : string;
  addresses : option (list (string * list address));
  accessIPv4 : option string;
  metadata : list (string * string);
  vars : list (string * value)
}.

(** ** [to_safe] *)

(** The character class [[A-Za-z0-9\-]]. *)
Definition safe_char (c : ascii) : bool :=
  Str.is_alnum c || Ascii.eqb c "-".

Definition to_safe_char (c : ascii) : ascii :=
  if safe_char c then c else "_"%char.

(** [re.sub(r"[^A-Za-z0-9\-]", "_", word)] *)
Definition to_safe (word : string) : string :=
  Str.map_chars to_safe_char word.

(** The characters the specification allows in a sanitized string. *)
Definition allowed_char (c : ascii) : bool :=
  safe_char c || Ascii.eqb c "_".

(** ** [get_ips] *)

(** The body of the inner loop: one address entry, with the two lists built
    so far. *)
Definition classify_address (acc : list string * list string) (a : address)
  : list string * list string :=
  let '(private, public) := acc in
  if bool_decide (ext_ips_type a = Some "fixed") then (private ++ [addr a], public)
  else if bool_decide (ext_ips_type a = Some "floating") then (private, public ++ [addr a])
  else (private, public).

(** The classification pass: [(private, public)] after the two loops. *)
Definition classify (server : Server) : list string * list string :=
  let addrs := default [] (addresses server) in
  if (0 <? length addrs)%nat then
    foldl (λ acc network, foldl classify_address acc network.2) ([], []) addrs
  else ([], []).

(** [get_ips(server, False)]: the three-element address list. *)
Definition get_ips_list (server : Server) : list (option string) :=
  let '(private, public) := classify server in
  [accessIPv4 server; Some (Str.join private); Some (Str.join public)].

(** [get_ips(server)]: the preferred access address.  [prefer_private] is the
    module-level flag read from the configuration. *)
Definition get_ips (prefer_private : bool) (server : Server) : option string :=
  let '(private, public) := classify server in
  let access_ip : option string := None in
  let access_ip :=
    if truthy (accessIPv4 server) then accessIPv4 server else access_ip in
  let access_ip :=
    if negb (truthy access_ip) && nonempty public
       && negb (nonempty private && prefer_private)
    then Some (Str.join public) else access_ip in
  let access_ip :=
    if nonempty private && negb (truthy access_ip)
    then Some (Str.join private) else access_ip in
  access_ip.

(** ** [get_metadata] *)

(** ['os_' + re.sub(r"[^A-Za-z0-9\-]", "_", key).lower()] *)
Definition flat_key (key : string) : string :=
  "os_" +:+ Str.lower (to_safe key).

(** The body of the loop over [vars(server)]. *)
Definition flatten_attr (results : gmap string value) (kv : string * value)
  : gmap string value :=
  let key := flat_key kv.1 in
  if bool_decide (key ≠ "os_manager") then <[key := kv.2]> results else results.

(** [get_metadata(server)].  The call [get_ips(server, False)] at its head
    has no effect and its value is dropped. *)
Definition get_metadata (server : Server) : gmap string value :=
  foldl flatten_attr ∅ (vars server).

(** ** The inventory dictionary *)

Abbreviation hostvars_map := (gmap (option string) (gmap string value)).

(** A value of the [groups] dictionary: a list of addresses, or, under the
    key ['_meta'], the dictionary [{'hostvars': hv}]. *)
Inductive entry :=
| EList (l : list string)
| EMeta (hv : hostvars_map).

(** [push(data, key, element)] *)
Definition push (data : gmap string entry) (key : string) (element : option string)
  : result (gmap string entry) :=
  if negb (truthy element) || negb (Str.truthy key) then Ok data
  else
    let e := default "" element in
    match data !! key with
    | Some (EList l) => Ok (<[key := EList (l ++ [e])]> data)
    | Some (EMeta _) => Raise AttributeError
    | None => Ok (<[key := EList [e]]> data)
    end.

(** [groups['_meta']['hostvars'][access_ip] = md] *)
Definition set_hostvars (groups : gmap string entry) (access_ip : option string)
    (md : gmap string value) : result (gmap string entry) :=
  match groups !! "_meta" with
  | Some (EMeta hv) => Ok (<["_meta" := EMeta (<[access_ip := md]> hv)]> groups)
  | Some (EList _) => Raise TypeError
  | None => Raise KeyError
  end.

(** [to_safe('tag_{0}_{1}'.format(key, value))] *)
Definition composed_key (kv : string * string) : string :=
  to_safe ("tag_" +:+ kv.1 +:+ "_" +:+ kv.2).

(** [server.metadata['group'] if 'group' in server.metadata else 'undefined'] *)
Definition group_of (server : Server) : string :=
  default "undefined" (dict_get (metadata server) "group").

(** The body of the list-mode loop. *)
Definition list_server (prefer_private : bool) (groups : gmap string entry)
    (server : Server) : result (gmap string entry) :=
  let access_ip := get_ips prefer_private server in
  groups ← push groups (name server) access_ip;
  groups ← for_each (λ groups kv, push groups (composed_key kv) access_ip)
             (metadata server) groups;
  groups ← push groups (group_of server) access_ip;
  set_hostvars groups access_ip (get_metadata server).

(** [{'_meta': {'hostvars': {}}}] *)
Definition initial_groups : gmap string entry := {["_meta" := EMeta ∅]}.

(** The list-mode loop over all servers. *)
Definition list_groups (prefer_private : bool) (servers : list Server)
  : result (gmap string entry) :=
  for_each (list_server prefer_private) servers initial_groups.

(** [sys.argv[2] in (get_ips(server) or [])] *)
Definition host_test (prefer_private : bool) (arg : string) (server : Server) : bool :=
  let ip := get_ips prefer_private server in
  if truthy ip then Str.contains (default "" ip) arg else false.

(** The host-mode loop. *)
Definition host_results (prefer_private : bool) (arg : string) (servers : list Server)
  : gmap string value :=
  foldl (λ results server,
           if host_test prefer_private arg server then get_metadata server
           else results)
        ∅ servers.

(** ** The dispatcher *)

(** What the script prints: the argument of [json.dumps] in the two modes,
    or the usage line. *)
Inductive stdout :=
| PrintGroups (groups : gmap string entry)
| PrintResults (results : gmap string value)
| PrintLine (line : string).

(** How a run ends: [sys.exit(status)] after printing, or an exception
    nobody catches. *)
Inductive outcome :=
| Exit (out : stdout) (status : Z)
| Uncaught (e : exn).

Definition usage : string := "usage: --list  ..OR.. --host <hostname>".

(** The [if]/[elif]/[else] at the end of the script.  [argv] is [sys.argv],
    program name included; [servers] is the answer of
    [client.servers.list()].  What is printed is the dictionary handed to
    [json.dumps]: its rendering as text, which fails for a value JSON
    cannot express, is not part of the model. *)
Definition main (prefer_private : bool) (servers : list Server) (argv : list string)
  : outcome :=
  if ((length argv =? 2)%nat && bool_decide (argv !! 1%nat = Some "--list"))
     || (length argv =? 1)%nat
  then
    match list_groups prefer_private servers with
    | Ok groups => Exit (PrintGroups groups) 0
    | Raise e => Uncaught e
    end
  else if (length argv =? 3)%nat && bool_decide (argv !! 1%nat = Some "--host")
  then
    Exit (PrintResults
            (host_results prefer_private (default "" (argv !! 2%nat)) servers)) 0
  else Exit (PrintLine usage) 1.

(** ** Views of the printed inventory *)

(** The address list of group [k] in a [groups] dictionary; no list, no
    addresses. *)
Definition group_list (groups : gmap string entry) (k : string) : list string :=
  match groups !! k with
  | Some (EList l) => l
  | _ => []
  end.

(** [groups['_meta']['hostvars']] *)
Definition hostvars_of (groups : gmap string entry) : hostvars_map :=
  match groups !! "_meta" with
  | Some (EMeta hv) => hv
  | _ => ∅
  end.

(** The group names list mode pushes a server's address to, in the order of
    the pushes. *)
Definition group_names (server : Server) : list string :=
  name server :: (composed_key <$> metadata server) ++ [group_of server].

(** ** Vocabulary of the specification *)

(** All address entries of a server, network after network. *)
Definition entries (server : Server) : list address :=
  concat ((default [] (addresses server)).*2).

(** The addresses tagged ["fixed"], resp. ["floating"], in iteration order. *)
Definition fixed_addrs (server : Server) : list string :=
  addr <$> filter (λ a, ext_ips_type a = Some "fixed") (entries server).

Definition floating_addrs (server : Server) : list string :=
  addr <$> filter (λ a, ext_ips_type a = Some "floating") (entries server).

(** What one server adds to the address list of group [k]: its address, once
    for every occurrence of [k] among its group names, when the address is
    present and [k] is not the empty name. *)
Definition pushes (prefer_private : bool) (server : Server) (k : string) : list string :=
  match get_ips prefer_private server with
  | Some a =>
      if Str.truthy a && Str.truthy k
      then replicate (length (filter (λ g, g = k) (group_names server))) a
      else []
  | None => []
  end.

(** A server matches the host-mode argument [arg]: its selected address is
    a non-empty string in which [arg] occurs. *)
Definition host_hit (prefer_private : bool) (arg : string) (server : Server) : Prop :=
  ∃ a, get_ips prefer_private server = Some a ∧ a ≠ "" ∧ Str.Substring arg a.

(** The shape of the [groups] dictionary all along the list-mode loop: the
    key ['_meta'] holds [{'hostvars': hv}], every other key a list. *)
Definition inventory (groups : gmap string entry) (hv : hostvars_map) : Prop :=
  groups !! "_meta" = Some (EMeta hv) ∧
  ∀ k hv', groups !! k = Some (EMeta hv') → k = "_meta".

(** A server with a present address one of whose group names is the
    reserved key ['_meta']. *)
Definition hits_meta (prefer_private : bool) (server : Server) : Prop :=
  truthy (get_ips prefer_private server) = true ∧ "_meta" ∈ group_names server.

(** ** Sample servers *)

Module Sample.

(** The two servers of the specification's end-to-end scenario. *)
Definition api1 : Server :=
  {| name := "api1"; addresses := None; accessIPv4 := Some "10.0.0.1";
     metadata := [("group", "web")];
     vars := [("name", VStr "api1"); ("accessIPv4", VStr "10.0.0.1");
              ("manager", VObject "ServerManager")] |}.

Definition db1 : Server :=
  {| name := "db1";
     addresses := Some [("net", [Address "10.0.0.2" (Some "fixed")])];
     accessIPv4 := None; metadata := [];
     vars := [("name", VStr "db1"); ("OS-EXT-STS:vm_state", VStr "active")] |}.

(** The server of the grouping scenario. *)
Definition api1_prod : Server :=
  {| name := "api1"; addresses := None; accessIPv4 := Some "10.0.0.1";
     metadata := [("group", "web"); ("env", "prod")];
     vars := [("name", VStr "api1")] |}.

(** A second server at [db1]'s address. *)
Definition db2 : Server :=
  {| name := "db2";
     addresses := Some [("net", [Address "10.0.0.2" (Some "floating")])];
     accessIPv4 := Some ""; metadata := [];
     vars := [("name", VStr "db2")] |}.

(** A server whose address has the address of [db1] inside it. *)
Definition far : Server :=
  {| name := "far"; addresses := None; accessIPv4 := Some "110.0.0.25";
     metadata := []; vars := [("name", VStr "far")] |}.

(** Servers without any address. *)
Definition ghost1 : Server :=
  {| name := "ghost1"; addresses := None; accessIPv4 := None;
     metadata := [("group", "web")]; vars := [("name", VStr "ghost1")] |}.

Definition ghost2 : Server :=
  {| name := "ghost2"; addresses := Some []; accessIPv4 := Some "";
     metadata := []; vars := [("name", VStr "ghost2")] |}.

(** A floating entry with an empty address next to a fixed one. *)
Definition blank_floating : Server :=
  {| name := "blank";
     addresses := Some [("net", [Address "" (Some "floating");
                                 Address "10.0.0.1" (Some "fixed")])];
     accessIPv4 := None; metadata := []; vars := [] |}.

(** Only a floating entry with an empty address. *)
Definition blank_only : Server :=
  {| name := "blank"; addresses := Some [("net", [Address "" (Some "floating")])];
     accessIPv4 := None; metadata := []; vars := [("name", VStr "blank")] |}.

(** Entries of every kind on two networks. *)
Definition mixed : Server :=
  {| name := "mixed";
     addresses := Some [("private", [Address "10.0.0.5" (Some "fixed");
                                     Address "172.16.0.5" (Some "floating")]);
                        ("other", [Address "192.168.0.5" None;
                                   Address "192.168.0.6" (Some "vip");
                                   Address "172.16.0.6" (Some "floating")])];
     accessIPv4 := Some ""; metadata := []; vars := [] |}.

(** A server whose [group] metadata is the empty string. *)
Definition no_group_name : Server :=
  {| name := "api1"; addresses := None; accessIPv4 := Some "10.0.0.1";
     metadata := [("group", "")]; vars := [] |}.

(** A server called ['_meta']. *)
Definition meta_named : Server :=
  {| name := "_meta"; addresses := None; accessIPv4 := Some "10.0.0.1";
     metadata := []; vars := [] |}.

(** Attribute bags for the flattener. *)
Definition with_state : Server :=
  {| name := "s"; addresses := None; accessIPv4 := None; metadata := [];
     vars := [("OS-EXT-STS:vm_state", VStr "active")] |}.

Definition with_Manager : Server :=
  {| name := "s"; addresses := None; accessIPv4 := None; metadata := [];
     vars := [("manager", VObject "ServerManager"); ("Manager", VStr "bob")] |}.

Definition with_clash : Server :=
  {| name := "s"; addresses := None; accessIPv4 := None; metadata := [];
     vars := [("a:b", VInt 1); ("a_b", VInt 2)] |}.

End Sample.

(** ** The configuration and the start of the script *)

(** The exceptions of the [ConfigParser] module the script meets. *)
Inductive config_error :=
| NoOptionError
| NoSectionError
| OtherError (name : string).

(** A computation of the start-up code: a value, or an exception of the
    configuration library. *)
Inductive attempt (A : Type) :=
| Done (a : A)
| Throw (e : config_error).
Arguments Done {A} a.
Arguments Throw {A} e.

#[global] Instance attempt_ret : MRet attempt := λ A a, Done a.
#[global] Instance attempt_bind : MBind attempt := λ A B f m,
  match m with
  | Done a => f a
  | Throw e => Throw e
  end.

(** A parser object, seen through the two methods the script calls:
    [config.get(section, option)], which answers a [str] or [None], and
    [config.getboolean(section, option)].  What they answer is the
    library's business. *)
Record ConfigParser := {
  config_get : string → string → attempt value;
  config_getboolean : string → string → attempt bool
}.

(** The files the script may look at: [os.path.exists(path)], and the parser
    [SafeConfigParser(NOVA_DEFAULTS)] after [p.read(path)]. *)
Record FileSystem := {
  path_exists : string → bool;
  read_config : string → attempt ConfigParser
}.

(** The process the script runs in: [os.getcwd()], [os.environ.get(name)]
    and [os.path.expanduser(path)]. *)
Record Process := {
  getcwd : string;
  environ : string → option string;
  expanduser : string → string
}.

(** [sep.join(l)] *)
Fixpoint join_sep (sep : string) (l : list string) : string :=
  match l with
  | [] => ""
  | [s] => s
  | s :: l' => s +:+ sep +:+ join_sep sep l'
  end.

(** Truth value of any Python value of the model. *)
Definition value_truthy (v : value) : bool :=
  match v with
  | VNone => false
  | VBool b => b
  | VInt n => negb (n =? 0)%Z
  | VStr s => Str.truthy s
  | VList l => nonempty l
  | VDict d => nonempty d
  | VObject _ => true
  end.

(** [a or b] *)
Definition py_or (a b : value) : value :=
  if value_truthy a then a else b.

(** [os.environ.get(name, None)] *)
Definition environ_get (proc : Process) (name : string) : value :=
  from_option VStr VNone (environ proc name).

(** [NOVA_CONFIG_FILES] *)
Definition NOVA_CONFIG_FILES (proc : Process) : list string :=
  [getcwd proc +:+ "/nova.ini";
   expanduser proc (default "~/nova.ini" (environ proc "ANSIBLE_CONFIG"));
   "/etc/ansible/nova.ini"].

(** The loop of [nova_load_config_file()] over the candidate paths. *)
Fixpoint load_first (fs : FileSystem) (paths : list string)
  : attempt (option ConfigParser) :=
  match paths with
  | [] => Done None
  | path :: paths' =>
      if path_exists fs path
      then p ← read_config fs path; Done (Some p)
      else load_first fs paths'
  end.

(** [nova_load_config_file()] *)
Definition nova_load_config_file (fs : FileSystem) (proc : Process)
  : attempt (option ConfigParser) :=
  load_first fs (NOVA_CONFIG_FILES proc).

(** [get_fallback(config, value, section)], the source's [value] being the
    option name [opt]; every call of the script leaves [section] at its
    default ["openstack"]. *)
Definition get_fallback (config : ConfigParser) (opt : string) (section : string)
  : attempt value :=
  match config_get config section opt with
  | Done v => Done v
  | Throw NoOptionError => Done (VBool false)
  | Throw e => Throw e
  end.

(** [get_fallback(config, option) or os.environ.get(variable, None)] *)
Definition credential (config : ConfigParser) (proc : Process)
    (opt variable : string) : attempt value :=
  v ← get_fallback config opt "openstack";
  Done (py_or v (environ_get proc variable)).

(** The [try] around [config.getboolean('openstack', 'prefer_private')],
    with [prefer_private = False] set before it and [NoOptionError] passed
    over. *)
Definition read_prefer_private (config : ConfigParser) : attempt bool :=
  match config_getboolean config "openstack" "prefer_private" with
  | Done b => Done b
  | Throw NoOptionError => Done false
  | Throw e => Throw e
  end.

(** The keyword arguments of [nova_client.Client(...)]. *)
Record Connection := {
  version : value;
  username : value;
  api_key : value;
  auth_url : value;
  region_name : value;
  project_id : value;
  auth_system : value;
  service_type : value
}.

(** How the code above the dispatcher ends: [sys.exit(message)], or the
    flag and the arguments the client is built with. *)
Inductive startup :=
| SysExit (message : string)
| Started (prefer_private : bool) (connection : Connection).

(** Lines 259 to 290, in the order in which Python evaluates them. *)
Definition start (fs : FileSystem) (proc : Process) : attempt startup :=
  config ← nova_load_config_file fs proc;
  match config with
  | None =>
      Done (SysExit ("Unable to find configfile in "
                     +:+ join_sep ", " (NOVA_CONFIG_FILES proc)))
  | Some config =>
      username ← credential config proc "username" "OS_USERNAME";
      api_key ← credential config proc "api_key" "OS_PASSWORD";
      auth_url ← credential config proc "auth_url" "OS_AUTH_URL";
      project_id ← credential config proc "project_id" "OS_TENANT_NAME";
      prefer_private ← read_prefer_private config;
      version ← config_get config "openstack" "version";
      region_name ← config_get config "openstack" "region_name";
      auth_system ← config_get config "openstack" "auth_system";
      service_type ← config_get config "openstack" "service_type";
      Done (Started prefer_private
              {| version := version; username := username; api_key := api_key;
                 auth_url := auth_url; region_name := region_name;
                 project_id := project_id; auth_system := auth_system;
                 service_type := service_type |})
  end.

(** How the whole script ends: an exception of the configuration library,
    [sys.exit(message)] (the message goes to standard error, the status is
    1), or what the dispatcher does. *)
Inductive script_outcome :=
| Crashed (e : config_error)
| Refused (message : string)
| Dispatched (o : outcome).

(** The script.  [list_servers] is [client.servers.list()] for the client
    built from a connection; what the client library does when it is built
    and when it is asked for the servers is not part of the model. *)
Definition script (fs : FileSystem) (proc : Process)
    (list_servers : Connection → list Server) (argv : list string) : script_outcome :=
  match start fs proc with
  | Throw e => Crashed e
  | Done (SysExit message) => Refused message
  | Done (Started prefer_private connection) =>
      Dispatched (main prefer_private (list_servers connection) argv)
  end.

(** ** More vocabulary *)

(** The characters of a flattened key after the prefix: lowercase letters,
    digits, hyphen and underscore. *)
Definition flat_char (c : ascii) : bool :=
  Str.is_lower c || Str.is_digit c || Ascii.eqb c "-" || Ascii.eqb c "_".

(** Every group of the dictionary has a name, at least one address, and no
    empty address. *)
Definition groups_filled (groups : gmap string entry) : Prop :=
  ∀ k l, groups !! k = Some (EList l) → k ≠ "" ∧ l ≠ [] ∧ Forall (λ a, a ≠ "") l.

(** ** More sample servers *)

Module SampleMore.

(** The entries of [Sample.mixed] on a single network with another name. *)
Definition mixed_flat : Server :=
  {| name := "flat";
     addresses := Some [("all", [Address "10.0.0.5" (Some "fixed");
                                 Address "172.16.0.5" (Some "floating");
                                 Address "192.168.0.5" None;
                                 Address "192.168.0.6" (Some "vip");
                                 Address "172.16.0.6" (Some "floating")])];
     accessIPv4 := Some ""; metadata := [("env", "prod")]; vars := [] |}.

(** An attribute bag without two attributes of the same flattened key. *)
Definition plain : Server :=
  {| name := "plain"; addresses := None; accessIPv4 := Some "10.0.0.9";
     metadata := [];
     vars := [("name", VStr "plain"); ("OS-EXT-STS:vm_state", VStr "active");
              ("manager", VObject "ServerManager"); ("_loaded", VBool true)] |}.

End SampleMore.

(** ** Sample configurations *)

Module SampleConfig.

(** A parser over an association list of the options of [openstack], with
    the defaults of [NOVA_DEFAULTS]; any other section is missing. *)
Definition parser (options : list (string * string)) : ConfigParser :=
  {| config_get section opt :=
       if bool_decide (section = "openstack") then
         match dict_get options opt with
         | Some v => Done (VStr v)
         | None =>
             if bool_decide (opt = "service_type") then Done (VStr "compute")
             else if bool_decide (opt ∈ ["auth_system"; "region_name"]) then Done VNone
             else Throw NoOptionError
         end
       else Throw NoSectionError;
     config_getboolean section opt :=
       if bool_decide (section = "openstack") then
         match dict_get options opt with
         | Some v =>
             if bool_decide (Str.lower v ∈ ["1"; "yes"; "true"; "on"]) then Done true
             else if bool_decide (Str.lower v ∈ ["0"; "no"; "false"; "off"])
             then Done false
             else Throw (OtherError "ValueError")
         | None => Throw NoOptionError
         end
       else Throw NoSectionError |}.

Definition full : list (string * string) :=
  [("version", "2"); ("username", "alice"); ("api_key", "secret");
   ("auth_url", "http://keystone:5000/v2.0/"); ("project_id", "demo")].

Definition no_version : list (string * string) :=
  [("username", "alice"); ("api_key", "")].

(** Only [/etc/ansible/nova.ini] exists. *)
Definition system_file (options : list (string * string)) : FileSystem :=
  {| path_exists path := bool_decide (path = "/etc/ansible/nova.ini");
     read_config _ := Done (parser options) |}.

(** [/etc/ansible/nova.ini] and [/srv/nova.ini] exist, with different
    contents. *)
Definition two_files : FileSystem :=
  {| path_exists path :=
       bool_decide (path ∈ ["/etc/ansible/nova.ini"; "/srv/nova.ini"]);
     read_config path :=
       if bool_decide (path = "/srv/nova.ini") then Done (parser full)
       else Done (parser no_version) |}.

Definition no_file : FileSystem :=
  {| path_exists _ := false; read_config _ := Throw (OtherError "ParsingError") |}.

Definition proc : Process :=
  {| getcwd := "/srv";
     environ name :=
       if bool_decide (name = "OS_USERNAME") then Some "bob"
       else if bool_decide (name = "OS_PASSWORD") then Some "hunter2"
       else None;
     expanduser path := path |}.

Definition home_proc : Process :=
  {| getcwd := "/home/alice"; environ _ := None;
     expanduser path := "/home/alice/nova.ini" |}.

End SampleConfig.

(** * Properties *)

(** ** The sanitizer *)

Lemma to_safe_char_allowed c : allowed_char (to_safe_char c) = true.
Proof.
  unfold allowed_char, to_safe_char.
  destruct (safe_char c) eqn:E; [by rewrite E | reflexivity].
Qed.

Lemma to_safe_char_idem c : to_safe_char (to_safe_char c) = to_safe_char c.
Proof.
  unfold to_safe_char.
  destruct (safe_char c) eqn:E.
  - by rewrite E.
  - reflexivity.
Qed.

Lemma map_chars_all (f : ascii → ascii) (p : ascii → bool) s :
  (∀ c, p (f c) = true) → Str.all_chars p (Str.map_chars f s) = true.
Proof.
  intros Hp. induction s as [|c s IH]; simpl; [done|].
  by rewrite Hp, IH.
Qed.

Lemma map_chars_idem (f : ascii → ascii) s :
  (∀ c, f (f c) = f c) → Str.map_chars f (Str.map_chars f s) = Str.map_chars f s.
Proof.
  intros Hf. induction s as [|c s IH]; simpl; [done|].
  by rewrite Hf, IH.
Qed.

(** C7. For every string [s], [to_safe s] contains only characters of
    [[A-Za-z0-9-]] and the underscore, and sanitizing is idempotent:
    [to_safe (to_safe s) = to_safe s]. *)
Theorem to_safe_allowed_idempotent (s : string) :
  Str.all_chars allowed_char (to_safe s) = true ∧
  to_safe (to_safe s) = to_safe s.
Proof.
  split.
  - apply map_chars_all, to_safe_char_allowed.
  - apply map_chars_idem, to_safe_char_idem.
Qed.

(** ** The classification pass *)

Lemma classify_address_step (a : address) (private public : list string) :
  classify_address (private, public) a =
  (private ++ (addr <$> filter (λ a, ext_ips_type a = Some "fixed") [a]),
   public ++ (addr <$> filter (λ a, ext_ips_type a = Some "floating") [a])).
Proof.
  unfold classify_address. rewrite !filter_cons, !filter_nil.
  repeat case_bool_decide; repeat case_decide;
    simpl; rewrite ?app_nil_r; congruence.
Qed.

Lemma classify_address_fold (l : list address) (private public : list string) :
  foldl classify_address (private, public) l =
  (private ++ (addr <$> filter (λ a, ext_ips_type a = Some "fixed") l),
   public ++ (addr <$> filter (λ a, ext_ips_type a = Some "floating") l)).
Proof.
  revert private public.
  induction l as [|a l IH]; intros private public.
  - simpl. by rewrite !app_nil_r.
  - change (foldl classify_address (private, public) (a :: l))
      with (foldl classify_address (classify_address (private, public) a) l).
    rewrite classify_address_step, IH.
    change (a :: l) with ([a] ++ l).
    by rewrite !filter_app, !fmap_app, !app_assoc.
Qed.

Lemma classify_networks_fold (nets : list (string * list address))
    (private public : list string) :
  foldl (λ acc network, foldl classify_address acc network.2) (private, public) nets =
  (private ++ (addr <$> filter (λ a, ext_ips_type a = Some "fixed") (concat nets.*2)),
   public ++ (addr <$> filter (λ a, ext_ips_type a = Some "floating") (concat nets.*2))).
Proof.
  revert private public.
  induction nets as [|[n l] nets IH]; intros private public; simpl.
  - by rewrite !app_nil_r.
  - rewrite classify_address_fold, IH.
    by rewrite !filter_app, !fmap_app, !app_assoc.
Qed.

Lemma classify_spec (server : Server) :
  classify server = (fixed_addrs server, floating_addrs server).
Proof.
  unfold classify, fixed_addrs, floating_addrs, entries.
  destruct (default [] (addresses server)) as [|net nets] eqn:E.
  - reflexivity.
  - change (0 <? length (net :: nets))%nat with true. cbv iota.
    by rewrite classify_networks_fold.
Qed.

(** C8. In the classification pass of [get_ips] an address entry counts as
    private exactly when its type tag equals ["fixed"] and as public exactly
    when it equals ["floating"]: the private list holds the addresses of the
    entries tagged ["fixed"], the public list those of the entries tagged
    ["floating"], both in iteration order, and an entry with any other tag
    or with none is in neither list. *)
Theorem classify_by_type_tag (server : Server) :
  (classify server).1 =
    addr <$> filter (λ a, ext_ips_type a = Some "fixed") (entries server) ∧
  (classify server).2 =
    addr <$> filter (λ a, ext_ips_type a = Some "floating") (entries server).
Proof. by rewrite classify_spec. Qed.

(** ** The address selector *)

(** C4. For every server that declares a non-empty [accessIPv4], [get_ips]
    returns exactly that string, whatever the server's address lists hold
    and whatever the prefer-private flag is. *)
Theorem get_ips_accessIPv4 (prefer_private : bool) (server : Server) (ip : string) :
  accessIPv4 server = Some ip → ip ≠ "" →
  get_ips prefer_private server = Some ip.
Proof.
  intros Hip Hne. unfold get_ips.
  destruct (classify server) as [private public].
  rewrite Hip. destruct ip as [|c ip]; [done|]. simpl.
  by rewrite andb_false_r.
Qed.

Lemma get_ips_accessIPv4_witness :
  accessIPv4 Sample.api1 = Some "10.0.0.1" ∧ "10.0.0.1" ≠ "" ∧
  get_ips true Sample.api1 = Some "10.0.0.1".
Proof.
  split; [reflexivity|]. split; [discriminate|].
  apply (get_ips_accessIPv4 true Sample.api1 "10.0.0.1"); [reflexivity | discriminate].
Defined.

(** C3, as the specification states it, fails: a server without
    [accessIPv4] has a floating address, the prefer-private flag is off, and
    yet the selected address is not the concatenation of the floating
    addresses (which is empty here) but that of the fixed ones. *)
Lemma get_ips_floating_counterexample :
  truthy (accessIPv4 Sample.blank_floating) = false ∧
  floating_addrs Sample.blank_floating ≠ [] ∧
  ¬ (fixed_addrs Sample.blank_floating ≠ [] ∧ false = true) ∧
  get_ips false Sample.blank_floating
    ≠ Some (Str.join (floating_addrs Sample.blank_floating)) ∧
  get_ips false Sample.blank_floating = Some "10.0.0.1".
Proof.
  split; [reflexivity|]. split; [discriminate|].
  split; [intros [_ ?]; discriminate|].
  split; [discriminate | reflexivity].
Qed.

(** C3, amended. For every server with an empty or absent [accessIPv4]: if
    at least one floating address exists and it is not the case that both a
    fixed address exists and the prefer-private flag is set, the selected
    address is the concatenation of all floating addresses in iteration
    order -- unless that concatenation is the empty string while a fixed
    address exists, in which case it is the concatenation of all fixed
    addresses; otherwise, if at least one fixed address exists, it is the
    concatenation of all fixed addresses; otherwise the result is [None]. *)
Theorem get_ips_without_accessIPv4 (prefer_private : bool) (server : Server) :
  truthy (accessIPv4 server) = false →
  get_ips prefer_private server =
    if nonempty (floating_addrs server)
       && negb (nonempty (fixed_addrs server) && prefer_private)
    then
      if negb (Str.truthy (Str.join (floating_addrs server)))
         && nonempty (fixed_addrs server)
      then Some (Str.join (fixed_addrs server))
      else Some (Str.join (floating_addrs server))
    else if nonempty (fixed_addrs server)
    then Some (Str.join (fixed_addrs server))
    else None.
Proof.
  intros Hfalsy. unfold get_ips. rewrite classify_spec, Hfalsy. simpl.
  destruct (nonempty (floating_addrs server)),
    (nonempty (fixed_addrs server)), prefer_private; simpl;
    try reflexivity;
    destruct (Str.truthy (Str.join (floating_addrs server))); reflexivity.
Qed.

Lemma get_ips_without_accessIPv4_witness :
  truthy (accessIPv4 Sample.mixed) = false ∧
  get_ips false Sample.mixed = Some "172.16.0.5172.16.0.6".
Proof.
  split; [reflexivity|].
  exact (get_ips_without_accessIPv4 false Sample.mixed eq_refl).
Defined.

(** ** The flattener *)

Lemma flatten_attr_lookup (m : gmap string value) (kv : string * value) (k : string) :
  flatten_attr m kv !! k =
    if decide (k = "os_manager") then m !! k
    else if decide (flat_key kv.1 = k) then Some kv.2 else m !! k.
Proof.
  unfold flatten_attr. case_bool_decide as Hkey.
  - rewrite lookup_insert. repeat case_decide; congruence.
  - repeat case_decide; congruence.
Qed.

Lemma flatten_fold_lookup (l : list (string * value)) (m : gmap string value) (k : string) :
  foldl flatten_attr m l !! k =
    if decide (k = "os_manager") then m !! k
    else match last (filter (λ kv, flat_key kv.1 = k) l) with
         | Some kv => Some kv.2
         | None => m !! k
         end.
Proof.
  induction l as [|kv l IH] using rev_ind.
  - simpl. by case_decide.
  - rewrite foldl_snoc, flatten_attr_lookup, IH.
    rewrite filter_app, filter_cons, filter_nil.
    destruct (decide (k = "os_manager")); [done|].
    destruct (decide (flat_key kv.1 = k)).
    + by rewrite last_snoc.
    + by rewrite app_nil_r.
Qed.

(** C2, as the specification states it, fails.  The hyphen is kept, so the
    attribute [OS-EXT-STS:vm_state] is found under [os_os-ext-sts_vm_state]
    and nothing is under [os_os_ext_sts_vm_state]; an attribute [Manager] is
    dropped together with [manager]; and of two attributes that are renamed
    to the same key only the value of the later one is kept. *)
Lemma get_metadata_counterexample :
  (get_metadata Sample.with_state !! "os_os_ext_sts_vm_state" = None ∧
   get_metadata Sample.with_state !! "os_os-ext-sts_vm_state" = Some (VStr "active")) ∧
  get_metadata Sample.with_Manager = ∅ ∧
  get_metadata Sample.with_clash = {["os_a_b" := VInt 2]}.
Proof. repeat split; vm_compute; reflexivity. Qed.

(** C2, amended. The flattener renames an attribute to [os_] followed by its
    name with every character outside [[A-Za-z0-9-]] replaced by an
    underscore (the hyphen is kept) and then lowercased, so
    [OS-EXT-STS:vm_state] becomes [os_os-ext-sts_vm_state].  It drops
    exactly the attributes whose new key is [os_manager].  Under every other
    key it records, unchanged, the value of the last attribute, in
    enumeration order, that is renamed to this key; a key no attribute is
    renamed to is not in the map. *)
Theorem get_metadata_lookup (server : Server) (k : string) :
  flat_key "OS-EXT-STS:vm_state" = "os_os-ext-sts_vm_state" ∧
  flat_key "manager" = "os_manager" ∧
  get_metadata server !! k =
    if decide (k = "os_manager") then None
    else snd <$> last (filter (λ kv, flat_key kv.1 = k) (vars server)).
Proof.
  split; [reflexivity|]. split; [reflexivity|].
  unfold get_metadata. rewrite flatten_fold_lookup, lookup_empty.
  case_decide; [done|].
  by destruct (last _).
Qed.

(** ** Substrings *)

Lemma append_cons (c : ascii) (s t : string) :
  String c s +:+ t = String c (s +:+ t).
Proof. reflexivity. Qed.

Lemma prefix_spec (needle hay : string) :
  String.prefix needle hay = true ↔ ∃ post, hay = needle +:+ post.
Proof.
  revert hay. induction needle as [|c needle IH]; intros hay.
  - split; [|by destruct hay]. intros _. by exists hay.
  - destruct hay as [|d hay]; simpl.
    + split; [done|]. by intros [post ?].
    + setoid_rewrite append_cons.
      destruct (ascii_dec c d) as [->|Hne].
      * rewrite IH. split; intros [post Hpost]; exists post; congruence.
      * split; [done|]. intros [post Hpost]. congruence.
Qed.

Lemma contains_unfold (hay needle : string) :
  Str.contains hay needle =
  String.prefix needle hay ||
  match hay with
  | EmptyString => false
  | String _ hay' => Str.contains hay' needle
  end.
Proof. by destruct hay. Qed.

Lemma contains_spec (hay needle : string) :
  Str.contains hay needle = true ↔ Str.Substring needle hay.
Proof.
  unfold Str.Substring.
  induction hay as [|d hay IH]; rewrite contains_unfold.
  - rewrite orb_false_r, prefix_spec. split.
    + intros [post Hpost]. by exists "", post.
    + intros [[|c pre] [post Hpost]]; [by exists post | done].
  - rewrite orb_true_iff, prefix_spec, IH. split.
    + intros [[post Hpost] | (pre & post & Hpost)].
      * by exists "", post.
      * exists (String d pre), post. by rewrite append_cons, Hpost.
    + intros ([|c pre] & post & Hpost).
      * left. by exists post.
      * right. exists pre, post. rewrite append_cons in Hpost. congruence.
Qed.

(** ** Host mode *)

Lemma host_test_spec (prefer_private : bool) (arg : string) (server : Server) :
  host_test prefer_private arg server = true ↔
  ∃ a, get_ips prefer_private server = Some a ∧ a ≠ "" ∧ Str.Substring arg a.
Proof.
  unfold host_test.
  destruct (get_ips prefer_private server) as [[|c a]|]; cbn -[Str.contains].
  - split; [done|]. by intros (a & [= <-] & ? & _).
  - rewrite contains_spec. split.
    + intros ?. by eexists.
    + by intros (a' & [= <-] & _ & ?).
  - split; [done|]. by intros (a & ? & _).
Qed.

Lemma host_results_last (prefer_private : bool) (arg : string) (servers : list Server) :
  host_results prefer_private arg servers =
  from_option get_metadata ∅
    (last (filter (λ s, host_test prefer_private arg s = true) servers)).
Proof.
  unfold host_results.
  induction servers as [|s servers IH] using rev_ind; [done|].
  rewrite foldl_snoc, filter_app, filter_cons, filter_nil, IH.
  destruct (host_test prefer_private arg s) eqn:E.
  - rewrite decide_True by done. by rewrite last_snoc.
  - rewrite decide_False by done. by rewrite app_nil_r.
Qed.

Lemma main_host (prefer_private : bool) (servers : list Server) (prog arg : string) :
  main prefer_private servers [prog; "--host"; arg] =
  Exit (PrintResults (host_results prefer_private arg servers)) 0.
Proof. reflexivity. Qed.

Lemma main_list (prefer_private : bool) (servers : list Server) (prog : string) :
  main prefer_private servers [prog; "--list"] =
  match list_groups prefer_private servers with
  | Ok groups => Exit (PrintGroups groups) 0
  | Raise e => Uncaught e
  end.
Proof. reflexivity. Qed.

(** C9. For every invocation whose arguments are neither empty, nor the
    single flag [--list], nor [--host] followed by exactly one address, the
    script prints the usage line on standard output and exits with code 1. *)
Theorem main_usage (prefer_private : bool) (servers : list Server)
    (prog : string) (args : list string) :
  args ≠ [] → args ≠ ["--list"] → (∀ a, args ≠ ["--host"; a]) →
  main prefer_private servers (prog :: args) = Exit (PrintLine usage) 1.
Proof.
  intros Hnil Hlist Hhost. unfold main.
  destruct args as [|a [|b [|c args]]]; [done| | |].
  - simpl. rewrite bool_decide_eq_false_2; [done|]. congruence.
  - simpl. rewrite bool_decide_eq_false_2; [done|].
    intros [= ->]. by apply (Hhost b).
  - reflexivity.
Qed.

Lemma main_usage_witness :
  ["-x"; "-y"; "-z"] ≠ [] ∧ ["-x"; "-y"; "-z"] ≠ ["--list"] ∧
  (∀ a, ["-x"; "-y"; "-z"] ≠ ["--host"; a]) ∧
  main false [Sample.api1; Sample.db1] ["nova.py"; "-x"; "-y"; "-z"]
    = Exit (PrintLine usage) 1.
Proof.
  split; [discriminate|]. split; [discriminate|]. split; [discriminate|].
  apply (main_usage false [Sample.api1; Sample.db1] "nova.py" ["-x"; "-y"; "-z"]);
    discriminate.
Defined.

Lemma append_nil_r (s : string) : s +:+ "" = s.
Proof. induction s as [|c s IH]; [done|]. by rewrite append_cons, IH. Qed.

Lemma Substring_refl (s : string) : Str.Substring s s.
Proof. exists "", "". by rewrite append_nil_r. Qed.

Lemma filter_iff_in {A} (P Q : A → Prop) `{!∀ x, Decision (P x), !∀ x, Decision (Q x)}
    (l : list A) :
  (∀ x, x ∈ l → P x ↔ Q x) → filter P l = filter Q l.
Proof.
  induction l as [|x l IH]; intros HPQ; [done|].
  rewrite !filter_cons, IH by (intros y Hy; apply HPQ; by right).
  destruct (decide (P x)) as [HP|HP], (decide (Q x)) as [HQ|HQ]; try done;
    exfalso; apply (HPQ x) in HP || apply (HPQ x) in HQ; try done; by left.
Qed.

(** C1, as the specification states it, fails.  When two servers have the
    address given, the metadata of the second one is printed, not that of
    the first; a server whose address merely has the argument inside it is
    selected although no address equals the argument; and for an empty
    argument nothing is printed for a server whose address is the empty
    string. *)
Lemma host_mode_counterexample :
  (get_ips false Sample.db1 = Some "10.0.0.2" ∧
   get_ips false Sample.db2 = Some "10.0.0.2" ∧
   main false [Sample.db1; Sample.db2] ["nova.py"; "--host"; "10.0.0.2"]
     = Exit (PrintResults (get_metadata Sample.db2)) 0 ∧
   get_metadata Sample.db2 ≠ get_metadata Sample.db1) ∧
  (get_ips false Sample.far ≠ Some "10.0.0.2" ∧
   main false [Sample.far] ["nova.py"; "--host"; "10.0.0.2"]
     = Exit (PrintResults (get_metadata Sample.far)) 0 ∧
   get_metadata Sample.far ≠ ∅) ∧
  (get_ips false Sample.blank_only = Some "" ∧
   main false [Sample.blank_only] ["nova.py"; "--host"; ""]
     = Exit (PrintResults ∅) 0 ∧
   get_metadata Sample.blank_only ≠ ∅).
Proof.
  repeat split; try reflexivity; discriminate.
Qed.

(** C1, amended. In host mode ([--host] plus exactly one, non-empty, address
    argument), provided no server's computed access address has the
    argument inside it without being equal to it, the script fetches all
    servers and prints the flattened metadata of the last server, in
    adapter-returned order, whose computed access address equals the
    argument; if no server's access address equals the argument it prints
    the empty document; in both cases it exits with status 0. *)
Theorem host_mode_equal_address (prefer_private : bool) (servers : list Server)
    (prog arg : string) :
  arg ≠ "" →
  (∀ s a, s ∈ servers → get_ips prefer_private s = Some a →
          Str.Substring arg a → a = arg) →
  main prefer_private servers [prog; "--host"; arg] =
  Exit (PrintResults
          (from_option get_metadata ∅
             (last (filter (λ s, get_ips prefer_private s = Some arg) servers)))) 0.
Proof.
  intros Harg Hproper. rewrite main_host, host_results_last.
  rewrite (filter_iff_in _ (λ s, get_ips prefer_private s = Some arg)); [done|].
  intros s Hs. rewrite host_test_spec. split.
  - intros (a & Ha & _ & Hsub). rewrite Ha. f_equal. by eapply Hproper.
  - intros Ha. exists arg. split_and!; [done..|]. apply Substring_refl.
Qed.

Lemma length_append (s t : string) :
  String.length (s +:+ t) = String.length s + String.length t.
Proof. induction s as [|c s IH]; [done|]. rewrite append_cons. simpl. by rewrite IH. Qed.

Lemma Substring_same_length (s t : string) :
  Str.Substring s t → String.length s = String.length t → t = s.
Proof.
  intros (pre & post & ->) Hlen.
  rewrite !length_append in Hlen.
  destruct pre; [|simpl in Hlen; lia].
  destruct post; [|simpl in Hlen; lia].
  by rewrite append_nil_r.
Qed.

Lemma host_mode_equal_address_witness :
  "10.0.0.2" ≠ "" ∧
  (∀ s a, s ∈ [Sample.api1; Sample.db1; Sample.db2] → get_ips false s = Some a →
          Str.Substring "10.0.0.2" a → a = "10.0.0.2") ∧
  main false [Sample.api1; Sample.db1; Sample.db2] ["nova.py"; "--host"; "10.0.0.2"] =
  Exit (PrintResults
          (from_option get_metadata ∅
             (last (filter (λ s, get_ips false s = Some "10.0.0.2")
                      [Sample.api1; Sample.db1; Sample.db2])))) 0.
Proof.
  assert (∀ s a, s ∈ [Sample.api1; Sample.db1; Sample.db2] → get_ips false s = Some a →
            Str.Substring "10.0.0.2" a → a = "10.0.0.2") as Hproper.
  { intros s a Hs Ha Hsub. apply Substring_same_length; [done|].
    repeat (apply elem_of_cons in Hs as [->|Hs]);
      [injection Ha as <-; reflexivity ..|]. by apply elem_of_nil in Hs. }
  split; [discriminate|]. split; [exact Hproper|].
  apply (host_mode_equal_address false [Sample.api1; Sample.db1; Sample.db2]
           "nova.py" "10.0.0.2"); [discriminate | exact Hproper].
Defined.

Lemma last_filter_cases {A} (P : A → Prop) `{!∀ x, Decision (P x)} (l : list A) :
  (∃ before x after, l = before ++ x :: after ∧ P x ∧ Forall (λ y, ¬ P y) after ∧
                     last (filter P l) = Some x)
  ∨ (Forall (λ y, ¬ P y) l ∧ last (filter P l) = None).
Proof.
  destruct (last (filter P l)) as [x|] eqn:E.
  - left. pose proof E as E'.
    apply last_filter_Some in E as (before & after & -> & Hafter).
    exists before, x, after. split_and!; [done| |done..].
    apply last_Some in E' as [l' Hl'].
    assert (x ∈ filter P (before ++ x :: after)) as Hx.
    { rewrite Hl'. apply elem_of_app. right. by left. }
    by apply list_elem_of_filter in Hx as [? _].
  - right. split; [|done]. apply last_None in E.
    apply Forall_forall. intros y Hy HP.
    by eapply filter_nil_not_elem_of.
Qed.

(** C10. In host mode the test is containment, not equality, and the loop
    does not stop at the first hit: the printed document is the flattened
    metadata of the last server, in adapter-returned order, whose selected
    access address is a non-empty string that has the argument inside it (a
    server whose selected address is [None] or empty never matches), and
    the empty document when there is no such server; the exit status is 0
    either way. *)
Theorem host_mode_last_substring (prefer_private : bool) (servers : list Server)
    (prog arg : string) :
  (∃ before s after,
      servers = before ++ s :: after ∧
      host_hit prefer_private arg s ∧
      Forall (λ s', ¬ host_hit prefer_private arg s') after ∧
      main prefer_private servers [prog; "--host"; arg]
        = Exit (PrintResults (get_metadata s)) 0)
  ∨ (Forall (λ s, ¬ host_hit prefer_private arg s) servers ∧
     main prefer_private servers [prog; "--host"; arg] = Exit (PrintResults ∅) 0).
Proof.
  rewrite main_host, host_results_last.
  destruct (last_filter_cases (λ s, host_test prefer_private arg s = true) servers)
    as [(before & s & after & -> & Hs & Hafter & ->) | [Hnone ->]].
  - left. exists before, s, after. split_and!; [done| | |done].
    + by apply host_test_spec.
    + eapply Forall_impl; [exact Hafter|]. intros s' Hs' Hhit.
      by apply Hs', host_test_spec.
  - right. split; [|done].
    eapply Forall_impl; [exact Hnone|]. intros s' Hs' Hhit.
    by apply Hs', host_test_spec.
Qed.

(** ** List mode: one push *)

Lemma push_falsy (g : gmap string entry) (key : string) (el : option string) :
  truthy el && Str.truthy key = false → push g key el = Ok g.
Proof.
  intros H. unfold push.
  by destruct (truthy el), (Str.truthy key).
Qed.

Lemma push_meta (g : gmap string entry) (hv : hostvars_map) (el : option string) :
  inventory g hv → truthy el = true →
  push g "_meta" el = Raise AttributeError.
Proof. intros [Hmeta _] Hel. unfold push. by rewrite Hel, Hmeta. Qed.

Lemma group_list_insert (g : gmap string entry) (key k : string) (l : list string) :
  group_list (<[key := EList l]> g) k = if decide (k = key) then l else group_list g k.
Proof.
  unfold group_list. rewrite lookup_insert.
  destruct (decide (key = k)) as [->|]; [by rewrite decide_True|].
  by rewrite decide_False.
Qed.

Lemma inventory_insert (g : gmap string entry) (hv : hostvars_map)
    (key : string) (l : list string) :
  inventory g hv → key ≠ "_meta" → inventory (<[key := EList l]> g) hv.
Proof.
  intros [Hmeta Hlists] Hkey. split.
  - by rewrite lookup_insert_ne.
  - intros k hv'. rewrite lookup_insert. case_decide; [done|]. apply Hlists.
Qed.

Lemma push_other (g : gmap string entry) (hv : hostvars_map)
    (key : string) (el : option string) :
  inventory g hv → key ≠ "_meta" →
  ∃ g', push g key el = Ok g' ∧ inventory g' hv ∧
        ∀ k, group_list g' k =
             group_list g k ++
             (if truthy el && Str.truthy k && bool_decide (k = key)
              then [default "" el] else []).
Proof.
  intros Hinv Hkey.
  destruct (truthy el && Str.truthy key) eqn:Hgo.
  - apply andb_true_iff in Hgo as [Hel Hk].
    exists (<[key := EList (group_list g key ++ [default "" el])]> g).
    split; [|split].
    + unfold push, group_list. rewrite Hel, Hk. simpl.
      destruct (g !! key) as [[l|hv']|] eqn:Eg; [done| |done].
      destruct Hinv as [_ Hlists]. by apply Hlists in Eg.
    + by apply inventory_insert.
    + intros k. rewrite group_list_insert. case_decide as Hkk.
      * subst k. by rewrite Hel, Hk, bool_decide_eq_true_2.
      * by rewrite bool_decide_eq_false_2, andb_false_r, app_nil_r.
  - rewrite push_falsy by done. exists g. split; [done|]. split; [done|].
    intros k. destruct (decide (k = key)) as [->|].
    + by rewrite bool_decide_eq_true_2, andb_true_r, Hgo, app_nil_r.
    + by rewrite bool_decide_eq_false_2, andb_false_r, app_nil_r.
Qed.

(** ** List mode: one server *)

Lemma for_each_app {S A} (body : S → A → result S) (l1 l2 : list A) (s : S) :
  for_each body (l1 ++ l2) s = s' ← for_each body l1 s; for_each body l2 s'.
Proof.
  revert s. induction l1 as [|a l1 IH]; intros s; [done|].
  simpl. destruct (body s a) as [s1|e]; [apply IH | done].
Qed.

Lemma for_each_fmap {S A B} (f : A → B) (body : S → B → result S) (l : list A) (s : S) :
  for_each (λ s a, body s (f a)) l s = for_each body (f <$> l) s.
Proof.
  revert s. induction l as [|a l IH]; intros s; [done|].
  simpl. destruct (body s (f a)) as [s1|e]; [apply IH | done].
Qed.

(** The loop body pushes the address to the group names one after the
    other and then records the host variables. *)
Lemma list_server_pushes (prefer_private : bool) (g : gmap string entry) (server : Server) :
  list_server prefer_private g server =
  g' ← for_each (λ g k, push g k (get_ips prefer_private server)) (group_names server) g;
  set_hostvars g' (get_ips prefer_private server) (get_metadata server).
Proof.
  unfold list_server, group_names. cbv zeta.
  change (for_each ?body (?x :: ?l) g) with (s' ← body g x; for_each body l s').
  destruct (push g (name server) (get_ips prefer_private server)) as [g1|e]; [|done].
  cbn [mbind result_bind].
  rewrite for_each_app.
  rewrite <- (for_each_fmap composed_key
                (λ g k, push g k (get_ips prefer_private server))).
  destruct (for_each _ (metadata server) g1) as [g2|e]; [|done].
  cbn [mbind result_bind for_each].
  by destruct (push g2 (group_of server) (get_ips prefer_private server)).
Qed.

Lemma push_all_falsy (g : gmap string entry) (ks : list string) (el : option string) :
  truthy el = false → for_each (λ g k, push g k el) ks g = Ok g.
Proof.
  intros Hel. induction ks as [|key ks IH]; [done|].
  simpl. rewrite push_falsy by by rewrite Hel. apply IH.
Qed.

Lemma push_all_other (ks : list string) (g : gmap string entry) (hv : hostvars_map)
    (el : option string) :
  inventory g hv → "_meta" ∉ ks →
  ∃ g', for_each (λ g k, push g k el) ks g = Ok g' ∧ inventory g' hv ∧
        ∀ k, group_list g' k =
             group_list g k ++
             (if truthy el && Str.truthy k
              then replicate (length (filter (λ x, x = k) ks)) (default "" el)
              else []).
Proof.
  revert g. induction ks as [|key ks IH]; intros g Hinv Hks.
  - exists g. split; [done|]. split; [done|]. intros k.
    rewrite filter_nil. simpl. destruct (_ && _); by rewrite app_nil_r.
  - apply not_elem_of_cons in Hks as [Hkey Hks].
    destruct (push_other g hv key el Hinv) as (g1 & Hpush & Hinv1 & Hg1); [done|].
    destruct (IH g1 Hinv1 Hks) as (g' & Hrest & Hinv' & Hg').
    exists g'. split; [by simpl; rewrite Hpush|]. split; [done|].
    intros k. rewrite Hg', Hg1, <- app_assoc. f_equal.
    rewrite filter_cons.
    destruct (truthy el && Str.truthy k); [|done]. simpl.
    case_bool_decide as Hk; subst; [by rewrite decide_True | by rewrite decide_False].
Qed.

Lemma push_all_meta (ks : list string) (g : gmap string entry) (hv : hostvars_map)
    (el : option string) :
  inventory g hv → "_meta" ∈ ks → truthy el = true →
  for_each (λ g k, push g k el) ks g = Raise AttributeError.
Proof.
  intros Hinv Hks Hel. revert g Hinv.
  induction ks as [|key ks IH]; intros g Hinv; [by apply elem_of_nil in Hks|].
  simpl. destruct (decide (key = "_meta")) as [->|Hkey].
  - by erewrite push_meta.
  - destruct (push_other g hv key el Hinv Hkey) as (g1 & -> & Hinv1 & _).
    apply elem_of_cons in Hks as [?|Hks]; [done|]. by apply IH.
Qed.

Lemma set_hostvars_inventory (g : gmap string entry) (hv : hostvars_map)
    (ip : option string) (md : gmap string value) :
  inventory g hv →
  ∃ g', set_hostvars g ip md = Ok g' ∧ inventory g' (<[ip := md]> hv) ∧
        ∀ k, group_list g' k = group_list g k.
Proof.
  intros [Hmeta Hlists]. eexists. unfold set_hostvars. rewrite Hmeta.
  split; [done|]. split; [split|].
  - by rewrite lookup_insert_eq.
  - intros k hv'. rewrite lookup_insert. case_decide; [done|]. apply Hlists.
  - intros k. unfold group_list. rewrite lookup_insert.
    case_decide; [subst k; by rewrite Hmeta | done].
Qed.

Lemma pushes_eq (prefer_private : bool) (server : Server) (k : string) :
  pushes prefer_private server k =
  if truthy (get_ips prefer_private server) && Str.truthy k
  then replicate (length (filter (λ x, x = k) (group_names server)))
         (default "" (get_ips prefer_private server))
  else [].
Proof. unfold pushes. by destruct (get_ips prefer_private server). Qed.

Lemma list_server_ok (prefer_private : bool) (g : gmap string entry) (hv : hostvars_map)
    (server : Server) :
  inventory g hv → ¬ hits_meta prefer_private server →
  ∃ g', list_server prefer_private g server = Ok g' ∧
        inventory g' (<[get_ips prefer_private server := get_metadata server]> hv) ∧
        ∀ k, group_list g' k = group_list g k ++ pushes prefer_private server k.
Proof.
  intros Hinv Hhit. rewrite list_server_pushes.
  destruct (truthy (get_ips prefer_private server)) eqn:Hip.
  - assert ("_meta" ∉ group_names server) as Hks by (intros ?; by apply Hhit).
    destruct (push_all_other _ g hv (get_ips prefer_private server) Hinv Hks)
      as (g1 & -> & Hinv1 & Hg1). simpl.
    destruct (set_hostvars_inventory g1 hv (get_ips prefer_private server)
                (get_metadata server) Hinv1) as (g' & -> & Hinv' & Hg').
    exists g'. split; [done|]. split; [done|].
    intros k. by rewrite Hg', Hg1, pushes_eq.
  - rewrite push_all_falsy by done. simpl.
    destruct (set_hostvars_inventory g hv (get_ips prefer_private server)
                (get_metadata server) Hinv) as (g' & -> & Hinv' & Hg').
    exists g'. split; [done|]. split; [done|].
    intros k. by rewrite Hg', pushes_eq, Hip, app_nil_r.
Qed.

Lemma list_server_meta (prefer_private : bool) (g : gmap string entry) (hv : hostvars_map)
    (server : Server) :
  inventory g hv → hits_meta prefer_private server →
  list_server prefer_private g server = Raise AttributeError.
Proof.
  intros Hinv [Hip Hks]. rewrite list_server_pushes.
  by erewrite push_all_meta.
Qed.

(** ** List mode: the whole loop *)

Lemma inventory_initial : inventory initial_groups ∅.
Proof.
  unfold initial_groups. split; [by rewrite lookup_singleton_eq|].
  intros k hv'. rewrite lookup_singleton. by case_decide.
Qed.

Lemma hits_meta_dec (prefer_private : bool) (server : Server) :
  hits_meta prefer_private server ∨ ¬ hits_meta prefer_private server.
Proof.
  unfold hits_meta.
  destruct (decide (truthy (get_ips prefer_private server) = true
                    ∧ "_meta" ∈ group_names server)); auto.
Qed.

Lemma list_loop_ok (prefer_private : bool) (servers : list Server)
    (g : gmap string entry) (hv : hostvars_map) :
  inventory g hv → Forall (λ s, ¬ hits_meta prefer_private s) servers →
  ∃ g' hv', for_each (list_server prefer_private) servers g = Ok g' ∧
    inventory g' hv' ∧
    (∀ ip, hv' !! ip =
           match last (filter (λ s, get_ips prefer_private s = ip) servers) with
           | Some s => Some (get_metadata s)
           | None => hv !! ip
           end) ∧
    ∀ k, group_list g' k =
         group_list g k ++ concat ((λ s, pushes prefer_private s k) <$> servers).
Proof.
  revert g hv. induction servers as [|s servers IH]; intros g hv Hinv Hall.
  - exists g, hv. split; [done|]. split; [done|]. split; [done|].
    intros k. by rewrite app_nil_r.
  - apply Forall_cons in Hall as [Hs Hall].
    destruct (list_server_ok prefer_private g hv s Hinv Hs) as (g1 & Hg1 & Hinv1 & Hl1).
    destruct (IH g1 _ Hinv1 Hall) as (g' & hv' & Hrun & Hinv' & Hhv & Hl).
    exists g', hv'. split; [by simpl; rewrite Hg1|]. split; [done|]. split.
    + intros ip. rewrite Hhv, filter_cons, lookup_insert.
      destruct (decide (get_ips prefer_private s = ip)) as [Hip|Hip].
      * rewrite last_cons. by destruct (last _).
      * done.
    + intros k. by rewrite Hl, Hl1, fmap_cons, concat_cons, app_assoc.
Qed.

Lemma list_loop_meta (prefer_private : bool) (servers : list Server)
    (g : gmap string entry) (hv : hostvars_map) :
  inventory g hv → Exists (hits_meta prefer_private) servers →
  for_each (list_server prefer_private) servers g = Raise AttributeError.
Proof.
  revert g hv. induction servers as [|s servers IH]; intros g hv Hinv Hex.
  - by apply Exists_nil in Hex.
  - simpl. destruct (hits_meta_dec prefer_private s) as [Hs|Hs].
    + by erewrite list_server_meta.
    + destruct (list_server_ok prefer_private g hv s Hinv Hs) as (g1 & -> & Hinv1 & _).
      apply Exists_cons in Hex as [?|Hex]; [done|]. by eapply IH.
Qed.

Lemma hostvars_of_inventory (g : gmap string entry) (hv : hostvars_map) :
  inventory g hv → hostvars_of g = hv.
Proof. intros [Hmeta _]. unfold hostvars_of. by rewrite Hmeta. Qed.

(** What list mode does, in full. *)
Lemma list_groups_spec (prefer_private : bool) (servers : list Server) :
  (Exists (hits_meta prefer_private) servers ∧
   list_groups prefer_private servers = Raise AttributeError)
  ∨ (Forall (λ s, ¬ hits_meta prefer_private s) servers ∧
     ∃ groups, list_groups prefer_private servers = Ok groups ∧
       (∀ ip, hostvars_of groups !! ip =
              get_metadata <$>
                last (filter (λ s, get_ips prefer_private s = ip) servers)) ∧
       ∀ k, group_list groups k =
            concat ((λ s, pushes prefer_private s k) <$> servers)).
Proof.
  assert (Exists (hits_meta prefer_private) servers
          ∨ Forall (λ s, ¬ hits_meta prefer_private s) servers) as [Hex|Hall].
  { induction servers as [|s servers [IH|IH]].
    - right. constructor.
    - left. by right.
    - destruct (hits_meta_dec prefer_private s); [left; by left | right; by constructor]. }
  - left. split; [done|]. by eapply list_loop_meta, Hex; apply inventory_initial.
  - right. split; [done|].
    destruct (list_loop_ok prefer_private servers _ _ inventory_initial Hall)
      as (g' & hv' & Hrun & Hinv' & Hhv & Hl).
    exists g'. split; [done|]. split.
    + intros ip. rewrite (hostvars_of_inventory _ _ Hinv'), Hhv, lookup_empty.
      by destruct (last _).
    + intros k. rewrite Hl. unfold group_list, initial_groups.
      rewrite lookup_singleton. by case_decide.
Qed.

Lemma elem_of_pushes (prefer_private : bool) (server : Server) (k a : string) :
  a ∈ pushes prefer_private server k ↔
  get_ips prefer_private server = Some a ∧ a ≠ "" ∧ k ≠ "" ∧ k ∈ group_names server.
Proof.
  unfold pushes. destruct (get_ips prefer_private server) as [b|].
  - destruct b as [|c b], k as [|d k]; simpl;
      [split; [intros H; by apply elem_of_nil in H
              | by intros ([= <-] & ? & ? & _)] ..|].
    rewrite elem_of_replicate. split.
    + intros [-> Hn]. split_and!; [done..|].
      destruct (filter _ _) as [|x l] eqn:E; [done|].
      assert (x ∈ filter (λ g, g = String d k) (group_names server)) as Hx
        by (rewrite E; by left).
      by apply list_elem_of_filter in Hx as [-> ?].
    + intros ([= <-] & _ & _ & Hk). split; [done|].
      assert (String d k ∈ filter (λ g, g = String d k) (group_names server)) as Hx
        by by apply list_elem_of_filter.
      by destruct (filter _ _); [apply elem_of_nil in Hx|].
  - split; [intros H; by apply elem_of_nil in H | by intros [? _]].
Qed.

Lemma elem_of_concat_fmap {A B} (f : A → list B) (l : list A) (b : B) :
  b ∈ concat (f <$> l) ↔ ∃ a, a ∈ l ∧ b ∈ f a.
Proof.
  induction l as [|x l IH].
  - simpl. rewrite elem_of_nil. split; [done|]. intros (a & Ha & _).
    by apply elem_of_nil in Ha.
  - rewrite fmap_cons, concat_cons, elem_of_app, IH. split.
    + intros [Hb | (a & Ha & Hb)]; [exists x; split; [by left|done]|].
      exists a. split; [by right | done].
    + intros (a & Ha & Hb). apply elem_of_cons in Ha as [->|Ha]; [by left|].
      right. by exists a.
Qed.

Lemma pushes_present_only (prefer_private : bool) (servers : list Server) (k : string) :
  concat ((λ s, pushes prefer_private s k) <$> servers) =
  concat ((λ s, pushes prefer_private s k)
            <$> filter (λ s, truthy (get_ips prefer_private s) = true) servers).
Proof.
  induction servers as [|s servers IH]; [done|].
  rewrite filter_cons, fmap_cons, concat_cons, IH.
  destruct (decide (truthy (get_ips prefer_private s) = true)) as [Hs|Hs]; [done|].
  apply not_true_is_false in Hs. by rewrite pushes_eq, Hs.
Qed.

(** C5, as the specification states it, fails.  A server with a present
    address whose [group] metadata is the empty string is in no group of
    that name: the push is skipped.  And for a server with a present address
    that is called [_meta] the run ends in an [AttributeError] and prints no
    group at all. *)
Lemma list_mode_groups_counterexample :
  (truthy (get_ips false Sample.no_group_name) = true ∧
   group_of Sample.no_group_name = "" ∧
   ∃ groups,
     main false [Sample.no_group_name] ["nova.py"; "--list"]
       = Exit (PrintGroups groups) 0 ∧
     groups !! "" = None) ∧
  (truthy (get_ips false Sample.meta_named) = true ∧
   name Sample.meta_named = "_meta" ∧
   main false [Sample.meta_named] ["nova.py"; "--list"] = Uncaught AttributeError).
Proof.
  split.
  - split; [reflexivity|]. split; [reflexivity|].
    eexists. split; [reflexivity|]. vm_compute. reflexivity.
  - split; [reflexivity|]. split; reflexivity.
Qed.

(** C5, amended. In list mode, provided no server with a present access
    address has the reserved name [_meta] among its group names, the script
    prints the inventory and exits with status 0, and every server with a
    present (non-empty) access address has that address appended, in
    adapter-returned order and once per occurrence of the name, to exactly
    these groups: the group named by the server's raw name, one group
    [to_safe("tag_<key>_<value>")] per metadata entry, and the group named
    by [metadata['group']] (or ["undefined"] when that key is absent) --
    except that a push to the empty group name is skipped.  No other address
    is in any group. *)
Theorem list_mode_groups (prefer_private : bool) (servers : list Server) (prog : string) :
  Forall (λ s, ¬ hits_meta prefer_private s) servers →
  ∃ groups,
    main prefer_private servers [prog; "--list"] = Exit (PrintGroups groups) 0 ∧
    (∀ k, group_list groups k =
          concat ((λ s, pushes prefer_private s k) <$> servers)) ∧
    (∀ k a, a ∈ group_list groups k ↔
            ∃ s, s ∈ servers ∧ get_ips prefer_private s = Some a ∧ a ≠ "" ∧
                 k ≠ "" ∧
                 k ∈ name s :: (composed_key <$> metadata s) ++ [group_of s]).
Proof.
  intros Hall. rewrite main_list.
  destruct (list_groups_spec prefer_private servers)
    as [[Hex _] | (_ & groups & -> & _ & Hl)].
  - exfalso. apply Exists_exists in Hex as (s & Hs & Hhit).
    by eapply Forall_forall in Hall.
  - exists groups. split; [done|]. split; [done|].
    intros k a. rewrite Hl, elem_of_concat_fmap.
    by setoid_rewrite elem_of_pushes.
Qed.

Lemma list_mode_groups_witness :
  Forall (λ s, ¬ hits_meta false s) [Sample.api1_prod] ∧
  ∃ groups,
    main false [Sample.api1_prod] ["nova.py"; "--list"] = Exit (PrintGroups groups) 0 ∧
    (∀ k, group_list groups k =
          concat ((λ s, pushes false s k) <$> [Sample.api1_prod])) ∧
    (∀ k a, a ∈ group_list groups k ↔
            ∃ s, s ∈ [Sample.api1_prod] ∧ get_ips false s = Some a ∧ a ≠ "" ∧
                 k ≠ "" ∧
                 k ∈ name s :: (composed_key <$> metadata s) ++ [group_of s]).
Proof.
  assert (Forall (λ s, ¬ hits_meta false s) [Sample.api1_prod]) as Hall.
  { apply Forall_cons. split; [|constructor]. intros [_ Hin].
    revert Hin. by apply (bool_decide_eq_false_1 _). }
  split; [exact Hall|].
  exact (list_mode_groups false [Sample.api1_prod] "nova.py" Hall).
Defined.

(** The grouping scenario of the specification: the server [api1] with
    metadata [{"group": "web", "env": "prod"}]. *)
Example list_mode_groups_api1 :
  ∃ groups,
    main false [Sample.api1_prod] ["nova.py"; "--list"] = Exit (PrintGroups groups) 0 ∧
    (group_list groups <$> ["api1"; "tag_env_prod"; "tag_group_web"; "web"])
      = [["10.0.0.1"]; ["10.0.0.1"]; ["10.0.0.1"]; ["10.0.0.1"]] ∧
    dom groups = {["api1"; "tag_env_prod"; "tag_group_web"; "web"; "_meta"]}.
Proof.
  eexists. split; [reflexivity|]. split; [reflexivity|].
  apply (bool_decide_unpack _). by vm_compute.
Qed.

(** C6, as the specification states it, fails.  Two servers without a
    present address -- the selector answers [None] for the first and, from
    its only floating entry, the empty string for the second -- are in no
    group, but they do not meet on one key of [_meta.hostvars]: the first is
    still there under [None] after the second was recorded under the empty
    string. *)
Lemma list_mode_absent_address_counterexample :
  truthy (get_ips false Sample.ghost1) = false ∧
  truthy (get_ips false Sample.blank_only) = false ∧
  ∃ groups,
    main false [Sample.ghost1; Sample.blank_only] ["nova.py"; "--list"]
      = Exit (PrintGroups groups) 0 ∧
    hostvars_of groups !! None = Some (get_metadata Sample.ghost1) ∧
    hostvars_of groups !! Some "" = Some (get_metadata Sample.blank_only) ∧
    get_metadata Sample.ghost1 ≠ get_metadata Sample.blank_only.
Proof.
  split; [reflexivity|]. split; [reflexivity|].
  eexists. split; [reflexivity|]. split; [reflexivity|]. split; [reflexivity|].
  intros H. apply (f_equal (λ m, m !! "os_name")) in H. vm_compute in H. discriminate.
Qed.

(** C6, amended. In the inventory list mode prints, a server whose computed
    access address is absent ([None] or the empty string) contributes no
    entry to any group's address list: the lists are those the servers with
    a present address produce.  Its flattened metadata is still recorded
    under [_meta.hostvars], keyed by that absent address; all servers with
    the same absent address share the key, and the entry is the metadata of
    the last of them in adapter-returned order. *)
Theorem list_mode_absent_address (prefer_private : bool) (servers : list Server)
    (prog : string) (groups : gmap string entry) :
  main prefer_private servers [prog; "--list"] = Exit (PrintGroups groups) 0 →
  (∀ k, group_list groups k =
        concat ((λ s, pushes prefer_private s k)
                  <$> filter (λ s, truthy (get_ips prefer_private s) = true)
                        servers)) ∧
  (∀ ip, truthy ip = false →
         hostvars_of groups !! ip =
         get_metadata <$>
           last (filter (λ s, get_ips prefer_private s = ip) servers)).
Proof.
  rewrite main_list.
  destruct (list_groups_spec prefer_private servers)
    as [[_ ->] | (_ & groups' & -> & Hhv & Hl)]; [done|].
  intros [= <-]. split.
  - intros k. by rewrite Hl, pushes_present_only.
  - intros ip _. apply Hhv.
Qed.

Lemma list_mode_absent_address_witness :
  ∃ groups,
    main false [Sample.ghost1; Sample.api1; Sample.ghost2] ["nova.py"; "--list"]
      = Exit (PrintGroups groups) 0 ∧
    (∀ k, group_list groups k =
          concat ((λ s, pushes false s k)
                    <$> filter (λ s, truthy (get_ips false s) = true)
                          [Sample.ghost1; Sample.api1; Sample.ghost2])) ∧
    (∀ ip, truthy ip = false →
           hostvars_of groups !! ip =
           get_metadata <$>
             last (filter (λ s, get_ips false s = ip)
                     [Sample.ghost1; Sample.api1; Sample.ghost2])).
Proof.
  eexists.
  assert (∀ g, main false [Sample.ghost1; Sample.api1; Sample.ghost2]
                 ["nova.py"; "--list"] = Exit (PrintGroups g) 0 →
               main false [Sample.ghost1; Sample.api1; Sample.ghost2]
                 ["nova.py"; "--list"] = Exit (PrintGroups g) 0 ∧
               (∀ k, group_list g k =
                     concat ((λ s, pushes false s k)
                               <$> filter (λ s, truthy (get_ips false s) = true)
                                     [Sample.ghost1; Sample.api1; Sample.ghost2])) ∧
               (∀ ip, truthy ip = false →
                      hostvars_of g !! ip =
                      get_metadata <$>
                        last (filter (λ s, get_ips false s = ip)
                                [Sample.ghost1; Sample.api1; Sample.ghost2])))
    as Happly.
  { intros g Hg. split; [exact Hg|].
    exact (list_mode_absent_address false _ "nova.py" g Hg). }
  apply Happly. reflexivity.
Defined.

(** Two servers without an address around one with an address: only the
    latter is in a group, and the second of the former is under [None]. *)
Example list_mode_absent_address_ghosts :
  ∃ groups,
    main false [Sample.ghost1; Sample.api1; Sample.ghost2] ["nova.py"; "--list"]
      = Exit (PrintGroups groups) 0 ∧
    (group_list groups <$> ["ghost1"; "ghost2"; "tag_group_web"; "web"; "undefined"])
      = [[]; []; ["10.0.0.1"]; ["10.0.0.1"]; []] ∧
    hostvars_of groups !! None = Some (get_metadata Sample.ghost2) ∧
    dom (hostvars_of groups) = {[None; Some "10.0.0.1"]}.
Proof.
  eexists. split; [reflexivity|]. split; [reflexivity|]. split; [reflexivity|].
  apply (bool_decide_unpack _). by vm_compute.
Qed.

(** * Further properties of the code *)

(** ** More on the sanitizer *)

Lemma to_safe_char_fixed (c : ascii) :
  to_safe_char c = c ↔ allowed_char c = true.
Proof.
  unfold to_safe_char, allowed_char. destruct (safe_char c) eqn:E; simpl.
  - done.
  - split.
    + intros <-. reflexivity.
    + intros Hc. apply Ascii.eqb_eq in Hc. by subst c.
Qed.

(** X1. [to_safe] leaves a string unchanged exactly when all its characters
    are in [[A-Za-z0-9-]] or are underscores. *)
Theorem to_safe_fixed_points (s : string) :
  to_safe s = s ↔ Str.all_chars allowed_char s = true.
Proof.
  induction s as [|c s IH]; [done|].
  change (to_safe (String c s)) with (String (to_safe_char c) (to_safe s)).
  cbn [Str.all_chars]. rewrite andb_true_iff, <- IH, <- to_safe_char_fixed. split.
  - by intros [= Hc Hs].
  - intros [Hc Hs]. by rewrite Hc, Hs.
Qed.

Lemma map_chars_append (f : ascii → ascii) (s t : string) :
  Str.map_chars f (s +:+ t) = Str.map_chars f s +:+ Str.map_chars f t.
Proof. induction s as [|c s IH]; [done|]. rewrite !append_cons. simpl. by rewrite IH, append_cons. Qed.

Lemma map_chars_length (f : ascii → ascii) (s : string) :
  String.length (Str.map_chars f s) = String.length s.
Proof. induction s as [|c s IH]; simpl; by rewrite ?IH. Qed.

(** X2. [to_safe] works character by character: it keeps the length and
    commutes with concatenation.  So the group name list mode builds for a
    metadata entry is [tag_], the sanitized key, an underscore, and the
    sanitized value. *)
Theorem composed_key_parts (s t key val : string) :
  String.length (to_safe s) = String.length s ∧
  to_safe (s +:+ t) = to_safe s +:+ to_safe t ∧
  composed_key (key, val) = "tag_" +:+ to_safe key +:+ "_" +:+ to_safe val.
Proof.
  split; [apply map_chars_length|]. split; [apply map_chars_append|].
  unfold composed_key, to_safe. simpl. by rewrite !map_chars_append.
Qed.

(** ** More on the address selector *)

(** X3. [get_ips] returns [None] exactly for a server without usable
    [accessIPv4] and without any entry tagged ["fixed"] or ["floating"]. *)
Theorem get_ips_None_iff (prefer_private : bool) (server : Server) :
  get_ips prefer_private server = None ↔
  truthy (accessIPv4 server) = false ∧
  fixed_addrs server = [] ∧ floating_addrs server = [].
Proof.
  unfold get_ips. rewrite classify_spec.
  destruct (accessIPv4 server) as [[|c ip]|];
    destruct (fixed_addrs server), (floating_addrs server), prefer_private;
    simpl; try destruct (Str.truthy _); simpl;
    (split; [done | intros (? & ? & ?); done]).
Qed.

(** X4. The two modes of [get_ips] agree: the list [get_ips(server, False)]
    returns holds [accessIPv4], the joined fixed addresses and the joined
    floating addresses, in this order, and the preferred address
    [get_ips(server)] returns is [None] or one of these three. *)
Theorem get_ips_among_candidates (prefer_private : bool) (server : Server) :
  get_ips_list server =
    [accessIPv4 server; Some (Str.join (fixed_addrs server));
     Some (Str.join (floating_addrs server))] ∧
  (get_ips prefer_private server = None ∨
   get_ips prefer_private server ∈ get_ips_list server).
Proof.
  unfold get_ips_list, get_ips. rewrite classify_spec. cbv zeta. split; [done|].
  destruct (truthy (accessIPv4 server)) eqn:Hip; simpl.
  - right. rewrite ?Hip.
    destruct (nonempty (fixed_addrs server)); simpl; rewrite ?Hip; simpl; by left.
  - destruct (nonempty (fixed_addrs server)), (nonempty (floating_addrs server)),
      prefer_private; simpl;
      try destruct (Str.truthy (Str.join (floating_addrs server))); simpl;
      try (by left); right; rewrite !elem_of_cons; by eauto.
Qed.

(** X5. The prefer-private flag changes the answer of [get_ips] only for a
    server without usable [accessIPv4] that has both fixed and floating
    addresses; with the flag set such a server gets its joined fixed
    addresses. *)
Theorem prefer_private_effect (server : Server) :
  get_ips true server = get_ips false server ∨
  (truthy (accessIPv4 server) = false ∧
   fixed_addrs server ≠ [] ∧ floating_addrs server ≠ [] ∧
   get_ips true server = Some (Str.join (fixed_addrs server))).
Proof.
  unfold get_ips. rewrite classify_spec. cbv zeta.
  destruct (truthy (accessIPv4 server)) eqn:Hip; rewrite ?Hip; simpl.
  - by left.
  - destruct (fixed_addrs server) as [|x fixed] eqn:Efix,
      (floating_addrs server) as [|y floating] eqn:Efl; simpl;
      [by left .. |].
    right. done.
Qed.

(** X6. [get_ips] looks at the address entries only: two servers with the
    same [accessIPv4] and the same entries in the same order get the same
    address, whatever the networks are called, however the entries are
    split over them, and whether the attribute is missing or empty. *)
Theorem get_ips_entries_only (prefer_private : bool) (server server' : Server) :
  accessIPv4 server = accessIPv4 server' → entries server = entries server' →
  get_ips prefer_private server = get_ips prefer_private server'.
Proof.
  intros Hip Hentries. unfold get_ips. rewrite !classify_spec.
  unfold fixed_addrs, floating_addrs. by rewrite Hip, Hentries.
Qed.

Lemma get_ips_entries_only_witness :
  accessIPv4 Sample.mixed = accessIPv4 SampleMore.mixed_flat ∧
  entries Sample.mixed = entries SampleMore.mixed_flat ∧
  get_ips true Sample.mixed = get_ips true SampleMore.mixed_flat.
Proof.
  split; [reflexivity|]. split; [reflexivity|].
  apply (get_ips_entries_only true Sample.mixed SampleMore.mixed_flat); reflexivity.
Defined.

(** ** More on the flattener *)

Lemma flat_char_lower_safe (c : ascii) :
  flat_char (Str.lower_char (to_safe_char c)) = true.
Proof. destruct c as [[] [] [] [] [] [] [] []]; reflexivity. Qed.

Lemma flat_key_chars (key : string) :
  Str.all_chars flat_char (Str.lower (to_safe key)) = true.
Proof.
  induction key as [|c key IH]; [done|].
  simpl. by rewrite flat_char_lower_safe.
Qed.

Lemma last_filter_elem {A} (P : A → Prop) `{!∀ x, Decision (P x)} (l : list A) (x : A) :
  last (filter P l) = Some x → x ∈ l ∧ P x.
Proof.
  intros Hlast. apply last_Some in Hlast as [l' Hl'].
  assert (x ∈ filter P l) as Hx by (rewrite Hl'; apply elem_of_app; right; by left).
  apply list_elem_of_filter in Hx. tauto.
Qed.

Lemma last_filter_is_Some {A} (P : A → Prop) `{!∀ x, Decision (P x)} (l : list A) (x : A) :
  x ∈ l → P x → is_Some (last (filter P l)).
Proof.
  intros Hx HP. apply last_is_Some. intros Hnil.
  by eapply filter_nil_not_elem_of.
Qed.

(** X7. The keys of the flattened metadata are exactly the rewritten names
    of the server's attributes, [os_manager] left out.  Every key is [os_]
    followed by lowercase letters, digits, hyphens and underscores only, and
    every value is the value of an attribute that is rewritten to its
    key. *)
Theorem get_metadata_keys (server : Server) (k : string) :
  (is_Some (get_metadata server !! k) ↔
   k ≠ "os_manager" ∧ k ∈ flat_key <$> (vars server).*1) ∧
  (∀ v, get_metadata server !! k = Some v →
        (∃ a, (a, v) ∈ vars server ∧ k = flat_key a) ∧
        ∃ k', k = "os_" +:+ k' ∧ Str.all_chars flat_char k' = true).
Proof.
  unfold get_metadata. rewrite flatten_fold_lookup, lookup_empty. split.
  - case_decide as Hk.
    + split; [by intros [? ?] | by intros [? _]].
    + split.
      * intros [v Hv]. split; [done|].
        destruct (last _) as [[a v']|] eqn:E; [|done].
        apply last_filter_elem in E as [Hin Ha]. simpl in Ha. subst k.
        apply list_elem_of_fmap. exists a. split; [done|].
        apply list_elem_of_fmap. by exists (a, v').
      * intros [_ Hin].
        apply list_elem_of_fmap in Hin as (a & -> & Hin).
        apply list_elem_of_fmap in Hin as ([a' v] & -> & Hin). simpl.
        destruct (last_filter_is_Some (λ kv, flat_key kv.1 = flat_key a')
                    (vars server) (a', v) Hin eq_refl) as [kv Hkv].
        rewrite Hkv. by eexists.
  - intros v. case_decide as Hk; [done|].
    destruct (last _) as [[a v']|] eqn:E; [|done].
    intros [= <-]. apply last_filter_elem in E as [Hin Ha]. simpl in Ha. subst k.
    split; [by exists a|].
    eexists. split; [reflexivity | apply flat_key_chars].
Qed.

Lemma NoDup_fmap_elem_eq {A B} (f : A → B) (l : list A) (x y : A) :
  NoDup (f <$> l) → x ∈ l → y ∈ l → f x = f y → x = y.
Proof.
  induction l as [|z l IH]; intros Hnd Hx Hy Hf.
  - by apply elem_of_nil in Hx.
  - rewrite fmap_cons in Hnd. apply NoDup_cons in Hnd as [Hz Hnd].
    apply elem_of_cons in Hx as [->|Hx]; apply elem_of_cons in Hy as [->|Hy].
    + done.
    + exfalso. apply Hz. rewrite Hf. by apply list_elem_of_fmap_2.
    + exfalso. apply Hz. rewrite <- Hf. by apply list_elem_of_fmap_2.
    + by apply IH.
Qed.

(** X8. When no two attributes of a server are rewritten to the same key,
    the flattener passes every attribute through: the value of each
    attribute, other than those rewritten to [os_manager], is found
    unchanged under the attribute's rewritten name. *)
Theorem get_metadata_pass_through (server : Server) (a : string) (v : value) :
  NoDup (flat_key <$> (vars server).*1) →
  (a, v) ∈ vars server → flat_key a ≠ "os_manager" →
  get_metadata server !! flat_key a = Some v.
Proof.
  intros Hnd Hin Hkey. unfold get_metadata.
  rewrite flatten_fold_lookup, decide_False by done.
  destruct (last_filter_is_Some (λ kv, flat_key kv.1 = flat_key a)
              (vars server) (a, v) Hin eq_refl) as [kv Hkv].
  rewrite Hkv. apply last_filter_elem in Hkv as [Hkv_in Hkv_key].
  rewrite <- list_fmap_compose in Hnd.
  by rewrite (NoDup_fmap_elem_eq _ _ kv (a, v) Hnd Hkv_in Hin Hkv_key).
Qed.

Lemma get_metadata_pass_through_witness :
  NoDup (flat_key <$> (vars SampleMore.plain).*1) ∧
  ("OS-EXT-STS:vm_state", VStr "active") ∈ vars SampleMore.plain ∧
  flat_key "OS-EXT-STS:vm_state" ≠ "os_manager" ∧
  get_metadata SampleMore.plain !! flat_key "OS-EXT-STS:vm_state" = Some (VStr "active").
Proof.
  assert (NoDup (flat_key <$> (vars SampleMore.plain).*1)) as Hnd
    by (by apply (bool_decide_unpack _)).
  assert (("OS-EXT-STS:vm_state", VStr "active") ∈ vars SampleMore.plain) as Hin
    by (right; left).
  split; [exact Hnd|]. split; [exact Hin|]. split; [discriminate|].
  apply (get_metadata_pass_through SampleMore.plain _ _ Hnd Hin). discriminate.
Defined.

(** ** More on [push] *)

(** X9. A push of a non-empty element under a non-empty key that does not
    hold a dictionary succeeds: afterwards the key holds its former list (the
    empty list for a new key) with the element appended at the end, and
    every other key holds what it held before. *)
Theorem push_appends (g : gmap string entry) (key e : string) :
  e ≠ "" → key ≠ "" → (∀ hv, g !! key ≠ Some (EMeta hv)) →
  ∃ g', push g key (Some e) = Ok g' ∧
        g' !! key = Some (EList (group_list g key ++ [e])) ∧
        ∀ k, k ≠ key → g' !! k = g !! k.
Proof.
  intros He Hkey Hlist. unfold push, group_list.
  destruct e as [|c e]; [done|]. destruct key as [|d key]; [done|]. simpl.
  destruct (g !! String d key) as [[l|hv]|] eqn:Eg.
  - eexists. split; [done|]. split; [by rewrite lookup_insert_eq|].
    intros k Hk. by rewrite lookup_insert_ne.
  - by destruct (Hlist hv).
  - eexists. split; [done|]. split; [by rewrite lookup_insert_eq|].
    intros k Hk. by rewrite lookup_insert_ne.
Qed.

Lemma push_appends_witness :
  "10.0.0.1" ≠ "" ∧ "web" ≠ "" ∧
  (∀ hv, initial_groups !! "web" ≠ Some (EMeta hv)) ∧
  ∃ g', push initial_groups "web" (Some "10.0.0.1") = Ok g' ∧
        g' !! "web" = Some (EList (group_list initial_groups "web" ++ ["10.0.0.1"])) ∧
        ∀ k, k ≠ "web" → g' !! k = initial_groups !! k.
Proof.
  assert (∀ hv, initial_groups !! "web" ≠ Some (EMeta hv)) as Hlist by done.
  split; [discriminate|]. split; [discriminate|]. split; [exact Hlist|].
  apply (push_appends initial_groups "web" "10.0.0.1"); [discriminate..|exact Hlist].
Defined.

(** X10. [push] raises only in one situation: element and key are both
    truthy and the key holds a dictionary instead of a list; the exception
    is then [AttributeError].  With a falsy element or key it returns the
    dictionary as it is. *)
Theorem push_raises (g : gmap string entry) (key : string) (el : option string) (e : exn) :
  (push g key el = Raise e ↔
   e = AttributeError ∧ truthy el = true ∧ key ≠ "" ∧ ∃ hv, g !! key = Some (EMeta hv)) ∧
  (truthy el = false ∨ key = "" → push g key el = Ok g).
Proof.
  split.
  - unfold push. destruct (truthy el) eqn:Hel; simpl.
    + destruct key as [|d key]; simpl.
      * split; [done | by intros (_ & _ & ? & _)].
      * destruct (g !! String d key) as [[l|hv]|] eqn:Eg.
        -- split; [done | by intros (_ & _ & _ & ? & ?)].
        -- split; [intros [= <-]; by eauto | by intros (-> & _)].
        -- split; [done | by intros (_ & _ & _ & ? & ?)].
    + split; [done | by intros (_ & ? & _)].
  - intros [Hel | ->]; apply push_falsy.
    + by rewrite Hel.
    + apply andb_false_r.
Qed.

(** ** More on host mode *)

Lemma host_results_equal (prefer_private : bool) (arg : string) (servers : list Server) :
  arg ≠ "" →
  (∀ s a, s ∈ servers → get_ips prefer_private s = Some a →
          Str.Substring arg a → a = arg) →
  host_results prefer_private arg servers =
  from_option get_metadata ∅
    (last (filter (λ s, get_ips prefer_private s = Some arg) servers)).
Proof.
  intros Harg Hproper. rewrite host_results_last.
  rewrite (filter_iff_in _ (λ s, get_ips prefer_private s = Some arg)); [done|].
  intros s Hs. rewrite host_test_spec. split.
  - intros (a & Ha & _ & Hsub). rewrite Ha. f_equal. by eapply Hproper.
  - intros Ha. exists arg. split_and!; [done..|]. apply Substring_refl.
Qed.

Lemma main_list_inv (prefer_private : bool) (servers : list Server) (prog : string)
    (groups : gmap string entry) (status : Z) :
  main prefer_private servers [prog; "--list"] = Exit (PrintGroups groups) status →
  list_groups prefer_private servers = Ok groups ∧ status = 0%Z.
Proof.
  rewrite main_list. destruct (list_groups prefer_private servers); [|done].
  by intros [= -> <-].
Qed.

Lemma list_groups_Ok (prefer_private : bool) (servers : list Server)
    (groups : gmap string entry) :
  list_groups prefer_private servers = Ok groups →
  Forall (λ s, ¬ hits_meta prefer_private s) servers ∧
  inventory groups (hostvars_of groups) ∧
  (∀ ip, hostvars_of groups !! ip =
         get_metadata <$> last (filter (λ s, get_ips prefer_private s = ip) servers)) ∧
  ∀ k, group_list groups k = concat ((λ s, pushes prefer_private s k) <$> servers).
Proof.
  intros Hrun.
  destruct (list_groups_spec prefer_private servers)
    as [[_ Hraise] | (Hall & groups' & Hok & Hhv & Hl)]; [congruence|].
  assert (groups' = groups) as -> by congruence.
  split; [done|]. split; [|done].
  destruct (list_loop_ok prefer_private servers _ _ inventory_initial Hall)
    as (g' & hv' & Hrun' & Hinv' & _).
  unfold list_groups in Hrun. assert (g' = groups) as -> by congruence.
  by rewrite (hostvars_of_inventory _ _ Hinv').
Qed.

(** X11. The two modes agree.  For a non-empty address that no server's
    address contains without being equal to it, host mode prints what list
    mode has under [_meta.hostvars] for this address, and the empty document
    when list mode has nothing for it. *)
Theorem host_mode_agrees_with_hostvars (prefer_private : bool) (servers : list Server)
    (prog arg : string) (groups : gmap string entry) :
  arg ≠ "" →
  (∀ s a, s ∈ servers → get_ips prefer_private s = Some a →
          Str.Substring arg a → a = arg) →
  main prefer_private servers [prog; "--list"] = Exit (PrintGroups groups) 0 →
  main prefer_private servers [prog; "--host"; arg] =
  Exit (PrintResults (default ∅ (hostvars_of groups !! Some arg))) 0.
Proof.
  intros Harg Hproper Hlist.
  apply main_list_inv in Hlist as [Hrun _].
  apply list_groups_Ok in Hrun as (_ & _ & Hhv & _).
  rewrite main_host, host_results_equal, Hhv by done.
  by destruct (last _).
Qed.

Lemma host_mode_agrees_with_hostvars_witness :
  ∃ groups,
    "10.0.0.2" ≠ "" ∧
    (∀ s a, s ∈ [Sample.api1; Sample.db1; Sample.db2] → get_ips false s = Some a →
            Str.Substring "10.0.0.2" a → a = "10.0.0.2") ∧
    main false [Sample.api1; Sample.db1; Sample.db2] ["nova.py"; "--list"]
      = Exit (PrintGroups groups) 0 ∧
    main false [Sample.api1; Sample.db1; Sample.db2] ["nova.py"; "--host"; "10.0.0.2"] =
    Exit (PrintResults (default ∅ (hostvars_of groups !! Some "10.0.0.2"))) 0.
Proof.
  assert (∀ s a, s ∈ [Sample.api1; Sample.db1; Sample.db2] → get_ips false s = Some a →
            Str.Substring "10.0.0.2" a → a = "10.0.0.2") as Hproper.
  { intros s a Hs Ha Hsub. apply Substring_same_length; [done|].
    repeat (apply elem_of_cons in Hs as [->|Hs]);
      [injection Ha as <-; reflexivity ..|]. by apply elem_of_nil in Hs. }
  eexists. split; [discriminate|]. split; [exact Hproper|].
  assert (∀ g, main false [Sample.api1; Sample.db1; Sample.db2] ["nova.py"; "--list"]
               = Exit (PrintGroups g) 0 →
               main false [Sample.api1; Sample.db1; Sample.db2] ["nova.py"; "--list"]
               = Exit (PrintGroups g) 0 ∧
               main false [Sample.api1; Sample.db1; Sample.db2]
                 ["nova.py"; "--host"; "10.0.0.2"]
               = Exit (PrintResults (default ∅ (hostvars_of g !! Some "10.0.0.2"))) 0)
    as Happly.
  { intros g Hg. split; [exact Hg|].
    apply (host_mode_agrees_with_hostvars false _ "nova.py" "10.0.0.2" g);
      [discriminate | exact Hproper | exact Hg]. }
  apply Happly. reflexivity.
Defined.

(** ** More on list mode *)

(** X12. In the inventory list mode prints, [_meta.hostvars] has exactly one
    entry for every address some server has ([None] and the empty string
    included), holding the flattened metadata of the last server, in
    adapter-returned order, with this address; the key [_meta] is always
    there, also for an empty server list. *)
Theorem list_mode_hostvars (prefer_private : bool) (servers : list Server)
    (prog : string) (groups : gmap string entry) :
  main prefer_private servers [prog; "--list"] = Exit (PrintGroups groups) 0 →
  groups !! "_meta" = Some (EMeta (hostvars_of groups)) ∧
  (∀ ip, hostvars_of groups !! ip =
         get_metadata <$> last (filter (λ s, get_ips prefer_private s = ip) servers)) ∧
  (∀ ip, is_Some (hostvars_of groups !! ip) ↔
         ∃ s, s ∈ servers ∧ get_ips prefer_private s = ip).
Proof.
  intros Hlist. apply main_list_inv in Hlist as [Hrun _].
  apply list_groups_Ok in Hrun as (_ & [Hmeta _] & Hhv & _).
  split; [done|]. split; [done|].
  intros ip. rewrite Hhv, fmap_is_Some. split.
  - intros [s Hs]. apply last_filter_elem in Hs as [? ?]. by exists s.
  - intros (s & Hs & Hip). by eapply last_filter_is_Some.
Qed.

Lemma list_mode_hostvars_witness :
  ∃ groups,
    main false [Sample.ghost1; Sample.api1] ["nova.py"; "--list"]
      = Exit (PrintGroups groups) 0 ∧
    groups !! "_meta" = Some (EMeta (hostvars_of groups)) ∧
    (∀ ip, hostvars_of groups !! ip =
           get_metadata <$>
             last (filter (λ s, get_ips false s = ip) [Sample.ghost1; Sample.api1])) ∧
    (∀ ip, is_Some (hostvars_of groups !! ip) ↔
           ∃ s, s ∈ [Sample.ghost1; Sample.api1] ∧ get_ips false s = ip).
Proof.
  eexists.
  assert (∀ g, main false [Sample.ghost1; Sample.api1] ["nova.py"; "--list"]
               = Exit (PrintGroups g) 0 →
               main false [Sample.ghost1; Sample.api1] ["nova.py"; "--list"]
               = Exit (PrintGroups g) 0 ∧
               g !! "_meta" = Some (EMeta (hostvars_of g)) ∧
               (∀ ip, hostvars_of g !! ip =
                      get_metadata <$>
                        last (filter (λ s, get_ips false s = ip)
                                [Sample.ghost1; Sample.api1])) ∧
               (∀ ip, is_Some (hostvars_of g !! ip) ↔
                      ∃ s, s ∈ [Sample.ghost1; Sample.api1] ∧ get_ips false s = ip))
    as Happly.
  { intros g Hg. split; [exact Hg|].
    exact (list_mode_hostvars false _ "nova.py" g Hg). }
  apply Happly. reflexivity.
Defined.

(** X13. Every address list mode puts into a group has host variables: it
    is a key of [_meta.hostvars]. *)
Theorem list_mode_grouped_has_hostvars (prefer_private : bool) (servers : list Server)
    (prog : string) (groups : gmap string entry) (k a : string) :
  main prefer_private servers [prog; "--list"] = Exit (PrintGroups groups) 0 →
  a ∈ group_list groups k →
  is_Some (hostvars_of groups !! Some a).
Proof.
  intros Hlist Ha. apply main_list_inv in Hlist as [Hrun _].
  apply list_groups_Ok in Hrun as (_ & _ & Hhv & Hl).
  rewrite Hl in Ha. apply elem_of_concat_fmap in Ha as (s & Hs & Ha).
  apply elem_of_pushes in Ha as (Hip & _).
  rewrite Hhv, fmap_is_Some. by eapply last_filter_is_Some.
Qed.

Lemma list_mode_grouped_has_hostvars_witness :
  ∃ groups,
    main false [Sample.api1; Sample.db1] ["nova.py"; "--list"]
      = Exit (PrintGroups groups) 0 ∧
    "10.0.0.2" ∈ group_list groups "undefined" ∧
    is_Some (hostvars_of groups !! Some "10.0.0.2").
Proof.
  eexists.
  assert (∀ g, main false [Sample.api1; Sample.db1] ["nova.py"; "--list"]
               = Exit (PrintGroups g) 0 →
               "10.0.0.2" ∈ group_list g "undefined" →
               main false [Sample.api1; Sample.db1] ["nova.py"; "--list"]
               = Exit (PrintGroups g) 0 ∧
               "10.0.0.2" ∈ group_list g "undefined" ∧
               is_Some (hostvars_of g !! Some "10.0.0.2")) as Happly.
  { intros g Hg Hin. split; [exact Hg|]. split; [exact Hin|].
    exact (list_mode_grouped_has_hostvars false _ "nova.py" g "undefined" "10.0.0.2"
             Hg Hin). }
  apply Happly; [reflexivity|]. by left.
Defined.

Lemma for_each_invariant {S A} (I : S → Prop) (body : S → A → result S)
    (l : list A) (s s' : S) :
  (∀ s a s', I s → body s a = Ok s' → I s') →
  I s → for_each body l s = Ok s' → I s'.
Proof.
  intros Hbody. revert s. induction l as [|a l IH]; intros s Hs Hrun.
  - by injection Hrun as <-.
  - simpl in Hrun. destruct (body s a) as [s1|e] eqn:E; [|done].
    eapply IH; [|exact Hrun]. by eapply Hbody.
Qed.

Lemma push_filled (g g' : gmap string entry) (key : string) (el : option string) :
  groups_filled g → push g key el = Ok g' → groups_filled g'.
Proof.
  intros Hg. unfold push.
  destruct (truthy el) eqn:Hel; simpl; [|by intros [= <-]].
  destruct (Str.truthy key) eqn:Hkey; simpl; [|by intros [= <-]].
  assert (key ≠ "") as Hkey' by (by destruct key).
  assert (default "" el ≠ "") as He by (by destruct el as [[|]|]).
  destruct (g !! key) as [[l|hv]|] eqn:Eg; [|done|]; intros [= <-];
    intros k l' Hk; apply lookup_insert_Some in Hk as [[<- [= <-]]|[_ Hk]];
    try (by eapply Hg).
  - split; [done|]. split; [by destruct l|].
    apply Forall_app. split; [|by constructor]. by eapply Hg.
  - split; [done|]. split; [done|]. by constructor.
Qed.

Lemma set_hostvars_filled (g g' : gmap string entry) (ip : option string)
    (md : gmap string value) :
  groups_filled g → set_hostvars g ip md = Ok g' → groups_filled g'.
Proof.
  intros Hg. unfold set_hostvars.
  destruct (g !! "_meta") as [[l|hv]|]; [done| |done]. intros [= <-].
  intros k l' Hk. apply lookup_insert_Some in Hk as [[_ ?]|[_ Hk]]; [done|].
  by eapply Hg.
Qed.

Lemma list_server_filled (prefer_private : bool) (g g' : gmap string entry)
    (server : Server) :
  groups_filled g → list_server prefer_private g server = Ok g' → groups_filled g'.
Proof.
  intros Hg. rewrite list_server_pushes.
  destruct (for_each _ (group_names server) g) as [g1|e] eqn:E; [|done].
  cbn [mbind result_bind]. apply set_hostvars_filled.
  eapply (for_each_invariant groups_filled); [|exact Hg|exact E].
  intros s a s' Hs. apply push_filled, Hs.
Qed.

(** X14. List mode prints no empty group: every group of the inventory has
    a non-empty name and at least one address, and none of its addresses is
    the empty string. *)
Theorem list_mode_no_empty_group (prefer_private : bool) (servers : list Server)
    (prog : string) (groups : gmap string entry) (k : string) (l : list string) :
  main prefer_private servers [prog; "--list"] = Exit (PrintGroups groups) 0 →
  groups !! k = Some (EList l) →
  k ≠ "" ∧ l ≠ [] ∧ Forall (λ a, a ≠ "") l.
Proof.
  intros Hlist. apply main_list_inv in Hlist as [Hrun _].
  revert k l. change (groups_filled groups).
  eapply (for_each_invariant groups_filled); [| |exact Hrun].
  - intros s a s'. apply list_server_filled.
  - intros k l. unfold initial_groups. rewrite lookup_singleton.
    by case_decide.
Qed.

Lemma list_mode_no_empty_group_witness :
  ∃ groups,
    main false [Sample.ghost1; Sample.no_group_name] ["nova.py"; "--list"]
      = Exit (PrintGroups groups) 0 ∧
    groups !! "api1" = Some (EList ["10.0.0.1"]) ∧
    ("api1" ≠ "" ∧ ["10.0.0.1"] ≠ [] ∧ Forall (λ a, a ≠ "") ["10.0.0.1"]).
Proof.
  eexists.
  assert (∀ g, main false [Sample.ghost1; Sample.no_group_name] ["nova.py"; "--list"]
               = Exit (PrintGroups g) 0 →
               g !! "api1" = Some (EList ["10.0.0.1"]) →
               main false [Sample.ghost1; Sample.no_group_name] ["nova.py"; "--list"]
               = Exit (PrintGroups g) 0 ∧
               g !! "api1" = Some (EList ["10.0.0.1"]) ∧
               ("api1" ≠ "" ∧ ["10.0.0.1"] ≠ [] ∧ Forall (λ a, a ≠ "") ["10.0.0.1"]))
    as Happly.
  { intros g Hg Hk. split; [exact Hg|]. split; [exact Hk|].
    exact (list_mode_no_empty_group false _ "nova.py" g "api1" ["10.0.0.1"] Hg Hk). }
  apply Happly; [reflexivity|]. vm_compute. reflexivity.
Defined.

Lemma composed_key_not_meta (kv : string * string) : composed_key kv ≠ "_meta".
Proof. unfold composed_key, to_safe. simpl. discriminate. Qed.

Lemma meta_among_group_names (server : Server) :
  "_meta" ∈ group_names server ↔ name server = "_meta" ∨ group_of server = "_meta".
Proof.
  unfold group_names. rewrite elem_of_cons, elem_of_app, list_elem_of_fmap.
  rewrite list_elem_of_singleton. split.
  - intros [?|[(kv & Hkv & _)|?]]; [by left| |by right].
    by destruct (composed_key_not_meta kv).
  - intros [?|?]; [by left | right; by right].
Qed.

(** X15. A server with a present address that is called [_meta], or that
    has [_meta] as its [group] metadata, makes list mode fail: wherever it
    stands in the server list and whatever the other servers are, the loop
    ends in an [AttributeError] and no inventory is printed. *)
Theorem list_mode_abort (prefer_private : bool) (servers : list Server)
    (prog : string) (s : Server) :
  s ∈ servers → truthy (get_ips prefer_private s) = true →
  name s = "_meta" ∨ group_of s = "_meta" →
  main prefer_private servers [prog; "--list"] = Uncaught AttributeError.
Proof.
  intros Hs Hip Hmeta. rewrite main_list.
  destruct (list_groups_spec prefer_private servers)
    as [[_ ->] | (Hall & _)]; [done|].
  exfalso. eapply (proj1 (Forall_forall _ _) Hall s Hs). split; [done|].
  by apply meta_among_group_names.
Qed.

Lemma list_mode_abort_witness :
  Sample.meta_named ∈ [Sample.api1; Sample.meta_named; Sample.db1] ∧
  truthy (get_ips false Sample.meta_named) = true ∧
  (name Sample.meta_named = "_meta" ∨ group_of Sample.meta_named = "_meta") ∧
  main false [Sample.api1; Sample.meta_named; Sample.db1] ["nova.py"; "--list"]
    = Uncaught AttributeError.
Proof.
  assert (Sample.meta_named ∈ [Sample.api1; Sample.meta_named; Sample.db1]) as Hin
    by (right; left).
  split; [exact Hin|]. split; [reflexivity|]. split; [by left|].
  apply (list_mode_abort false _ "nova.py" Sample.meta_named Hin); [reflexivity|].
  by left.
Defined.

Lemma concat_fmap_Permutation {A B} (f : A → list B) (l l' : list A) :
  l ≡ₚ l' → concat (f <$> l) ≡ₚ concat (f <$> l').
Proof.
  induction 1 as [|x l l' _ IH|x y l|l l' l'' _ IH1 _ IH2]; simpl.
  - done.
  - by rewrite IH.
  - rewrite !app_assoc. f_equiv. apply Permutation_app_comm.
  - by rewrite IH1.
Qed.

(** X16. The order in which the adapter returns the servers decides the
    order inside a group, nothing else about the groups: for a rearranged
    server list list mode succeeds as well, and each group holds the same
    addresses, as often. *)
Theorem list_mode_order (prefer_private : bool) (servers servers' : list Server)
    (prog : string) (groups : gmap string entry) :
  servers ≡ₚ servers' →
  main prefer_private servers [prog; "--list"] = Exit (PrintGroups groups) 0 →
  ∃ groups',
    main prefer_private servers' [prog; "--list"] = Exit (PrintGroups groups') 0 ∧
    ∀ k, group_list groups k ≡ₚ group_list groups' k.
Proof.
  intros Hperm Hlist. apply main_list_inv in Hlist as [Hrun _].
  apply list_groups_Ok in Hrun as (Hall & _ & _ & Hl).
  rewrite main_list.
  destruct (list_groups_spec prefer_private servers')
    as [[Hex _] | (_ & groups' & -> & _ & Hl')].
  - exfalso. apply Exists_exists in Hex as (s & Hs & Hhit).
    rewrite <- Hperm in Hs. by eapply (proj1 (Forall_forall _ _) Hall s Hs).
  - exists groups'. split; [done|]. intros k.
    rewrite Hl, Hl'. by apply concat_fmap_Permutation.
Qed.

Lemma list_mode_order_witness :
  ∃ groups,
    [Sample.api1; Sample.db1] ≡ₚ [Sample.db1; Sample.api1] ∧
    main false [Sample.api1; Sample.db1] ["nova.py"; "--list"]
      = Exit (PrintGroups groups) 0 ∧
    ∃ groups',
      main false [Sample.db1; Sample.api1] ["nova.py"; "--list"]
        = Exit (PrintGroups groups') 0 ∧
      ∀ k, group_list groups k ≡ₚ group_list groups' k.
Proof.
  eexists.
  assert (∀ g, main false [Sample.api1; Sample.db1] ["nova.py"; "--list"]
               = Exit (PrintGroups g) 0 →
               [Sample.api1; Sample.db1] ≡ₚ [Sample.db1; Sample.api1] ∧
               main false [Sample.api1; Sample.db1] ["nova.py"; "--list"]
               = Exit (PrintGroups g) 0 ∧
               ∃ groups',
                 main false [Sample.db1; Sample.api1] ["nova.py"; "--list"]
                   = Exit (PrintGroups groups') 0 ∧
                 ∀ k, group_list g k ≡ₚ group_list groups' k) as Happly.
  { intros g Hg. split; [apply perm_swap|]. split; [exact Hg|].
    exact (list_mode_order false _ _ "nova.py" g (perm_swap _ _ _) Hg). }
  apply Happly. reflexivity.
Defined.

(** ** The configuration *)

Lemma load_first_cases (fs : FileSystem) (paths : list string) :
  (∃ before path after,
      paths = before ++ path :: after ∧
      Forall (λ p, path_exists fs p = false) before ∧
      path_exists fs path = true ∧
      load_first fs paths = (p ← read_config fs path; Done (Some p)))
  ∨ (Forall (λ p, path_exists fs p = false) paths ∧ load_first fs paths = Done None).
Proof.
  induction paths as [|path paths IH].
  - right. by split.
  - simpl. destruct (path_exists fs path) eqn:E.
    + left. exists [], path, paths. by split_and!.
    + destruct IH as [(before & path' & after & -> & Hbefore & Hpath & Hload)
                     | [Hnone Hload]].
      * left. exists (path :: before), path', after.
        split_and!; [done | by constructor | done | done].
      * right. split; [by constructor | done].
Qed.

(** X17. [nova_load_config_file] reads the first candidate path that
    exists, in the order [<cwd>/nova.ini], the expanded [ANSIBLE_CONFIG] (or
    [~/nova.ini]), [/etc/ansible/nova.ini], and nothing else: what it
    returns, or raises, is what reading this one file does, whatever the
    later candidates hold.  It returns [None] exactly when no candidate
    exists. *)
Theorem nova_load_config_file_first (fs : FileSystem) (proc : Process) :
  NOVA_CONFIG_FILES proc =
    [getcwd proc +:+ "/nova.ini";
     expanduser proc (default "~/nova.ini" (environ proc "ANSIBLE_CONFIG"));
     "/etc/ansible/nova.ini"] ∧
  ((∃ before path after,
       NOVA_CONFIG_FILES proc = before ++ path :: after ∧
       Forall (λ p, path_exists fs p = false) before ∧
       path_exists fs path = true ∧
       nova_load_config_file fs proc = (p ← read_config fs path; Done (Some p)))
   ∨ (Forall (λ p, path_exists fs p = false) (NOVA_CONFIG_FILES proc) ∧
      nova_load_config_file fs proc = Done None)).
Proof. split; [done|]. apply load_first_cases. Qed.

(** X18. For [username], [api_key], [auth_url] and [project_id] the file
    comes first: a non-empty value of the [openstack] section is used
    whatever the environment holds, and the environment variable is used
    only when the option is missing, [None] or empty.  A missing option
    never makes this step fail; any other exception of [config.get], such as
    the one for a missing [openstack] section, is not caught. *)
Theorem credential_precedence (config : ConfigParser) (proc : Process)
    (opt variable : string) :
  (∀ s, s ≠ "" → config_get config "openstack" opt = Done (VStr s) →
        credential config proc opt variable = Done (VStr s)) ∧
  (config_get config "openstack" opt = Throw NoOptionError ∨
   config_get config "openstack" opt = Done VNone ∨
   config_get config "openstack" opt = Done (VStr "") →
   credential config proc opt variable = Done (environ_get proc variable)) ∧
  (∀ e, credential config proc opt variable = Throw e ↔
        e ≠ NoOptionError ∧ config_get config "openstack" opt = Throw e).
Proof.
  unfold credential, get_fallback. split; [|split].
  - intros s Hs ->. simpl. by destruct s.
  - by intros [-> | [-> | ->]].
  - intros e. destruct (config_get config "openstack" opt) as [v|[| |n]]; simpl.
    + split; [done | by intros [_ ?]].
    + split; [done | by intros [? [= <-]]].
    + split; [by intros [= <-] | by intros [_ [= <-]]].
    + split; [by intros [= <-] | by intros [_ [= <-]]].
Qed.

Lemma credential_precedence_witness :
  credential (SampleConfig.parser SampleConfig.full) SampleConfig.proc
    "username" "OS_USERNAME" = Done (VStr "alice") ∧
  credential (SampleConfig.parser SampleConfig.no_version) SampleConfig.proc
    "api_key" "OS_PASSWORD" = Done (environ_get SampleConfig.proc "OS_PASSWORD").
Proof.
  split.
  - apply (credential_precedence (SampleConfig.parser SampleConfig.full)
             SampleConfig.proc "username" "OS_USERNAME"); [discriminate | reflexivity].
  - apply (credential_precedence (SampleConfig.parser SampleConfig.no_version)
             SampleConfig.proc "api_key" "OS_PASSWORD").
    right. right. reflexivity.
Defined.

Lemma append_assoc (s t u : string) : (s +:+ t) +:+ u = s +:+ t +:+ u.
Proof. induction s as [|c s IH]; [done|]. by rewrite !append_cons, IH. Qed.

(** X19. Without a configuration file the script stops before it looks at
    its arguments or at the environment's credentials: whatever the
    arguments are, it ends in [sys.exit] with the message that names the
    three candidate paths, and neither the inventory nor the usage line is
    printed. *)
Theorem script_without_config (fs : FileSystem) (proc : Process)
    (list_servers : Connection → list Server) (argv : list string) :
  Forall (λ p, path_exists fs p = false) (NOVA_CONFIG_FILES proc) →
  script fs proc list_servers argv =
  Refused ("Unable to find configfile in " +:+ getcwd proc +:+ "/nova.ini, "
           +:+ expanduser proc (default "~/nova.ini" (environ proc "ANSIBLE_CONFIG"))
           +:+ ", /etc/ansible/nova.ini").
Proof.
  intros Hnone. unfold script, start.
  destruct (load_first_cases fs (NOVA_CONFIG_FILES proc))
    as [(before & path & after & Hsplit & _ & Hpath & _) | [_ Hload]].
  - exfalso. rewrite Hsplit in Hnone.
    apply Forall_app in Hnone as [_ Hnone]. apply Forall_cons in Hnone as [Hp _].
    congruence.
  - unfold nova_load_config_file. rewrite Hload. simpl. do 2 f_equal.
    by rewrite append_assoc.
Qed.

Lemma script_without_config_witness :
  Forall (λ p, path_exists SampleConfig.no_file p = false)
    (NOVA_CONFIG_FILES SampleConfig.home_proc) ∧
  script SampleConfig.no_file SampleConfig.home_proc (λ _, [Sample.api1])
    ["nova.py"; "-x"; "-y"; "-z"] =
  Refused ("Unable to find configfile in " +:+ getcwd SampleConfig.home_proc
           +:+ "/nova.ini, "
           +:+ expanduser SampleConfig.home_proc
                 (default "~/nova.ini" (environ SampleConfig.home_proc "ANSIBLE_CONFIG"))
           +:+ ", /etc/ansible/nova.ini").
Proof.
  assert (Forall (λ p, path_exists SampleConfig.no_file p = false)
            (NOVA_CONFIG_FILES SampleConfig.home_proc)) as Hnone
    by (repeat constructor).
  split; [exact Hnone|].
  exact (script_without_config SampleConfig.no_file SampleConfig.home_proc _ _ Hnone).
Defined.

(** X20. Whenever the script gets as far as the dispatcher, it has read one
    existing candidate file; the file gave a [version] (there is neither a
    default nor an environment variable for it); the prefer-private flag is
    set only if the file sets it; and the four credentials are the file's
    values with the environment behind them. *)
Theorem script_dispatched (fs : FileSystem) (proc : Process)
    (list_servers : Connection → list Server) (argv : list string) (o : outcome) :
  script fs proc list_servers argv = Dispatched o →
  ∃ path config prefer_private connection,
    path ∈ NOVA_CONFIG_FILES proc ∧ path_exists fs path = true ∧
    read_config fs path = Done config ∧
    config_get config "openstack" "version" = Done (version connection) ∧
    (prefer_private = true →
     config_getboolean config "openstack" "prefer_private" = Done true) ∧
    credential config proc "username" "OS_USERNAME" = Done (username connection) ∧
    credential config proc "api_key" "OS_PASSWORD" = Done (api_key connection) ∧
    credential config proc "auth_url" "OS_AUTH_URL" = Done (auth_url connection) ∧
    credential config proc "project_id" "OS_TENANT_NAME" = Done (project_id connection) ∧
    o = main prefer_private (list_servers connection) argv.
Proof.
  unfold script, start, nova_load_config_file.
  destruct (load_first_cases fs (NOVA_CONFIG_FILES proc))
    as [(before & path & after & Hsplit & _ & Hpath & ->) | [_ ->]]; [|done].
  destruct (read_config fs path) as [config|e] eqn:Hread; [|done]. simpl.
  destruct (credential config proc "username" "OS_USERNAME") as [u|?] eqn:Hu; [|done].
  destruct (credential config proc "api_key" "OS_PASSWORD") as [k|?] eqn:Hk; [|done].
  destruct (credential config proc "auth_url" "OS_AUTH_URL") as [url|?] eqn:Hurl; [|done].
  destruct (credential config proc "project_id" "OS_TENANT_NAME") as [p|?] eqn:Hp;
    [|done].
  simpl.
  destruct (read_prefer_private config) as [b|?] eqn:Hb; [|done]. simpl.
  destruct (config_get config "openstack" "version") as [v|?] eqn:Hv; [|done].
  destruct (config_get config "openstack" "region_name") as [r|?]; [|done].
  destruct (config_get config "openstack" "auth_system") as [a|?]; [|done].
  destruct (config_get config "openstack" "service_type") as [t|?]; [|done].
  simpl. intros [= <-].
  exists path, config, b,
    {| version := v; username := u; api_key := k; auth_url := url;
       region_name := r; project_id := p; auth_system := a; service_type := t |}.
  split; [rewrite Hsplit; apply elem_of_app; right; by left|].
  split_and!;
    [done | done | exact Hv | | exact Hu | exact Hk | exact Hurl | exact Hp | done].
  intros ->. unfold read_prefer_private in Hb.
  by destruct (config_getboolean config "openstack" "prefer_private")
    as [[]|[| |n]].
Qed.

Lemma script_dispatched_witness :
  script SampleConfig.two_files SampleConfig.proc (λ _, [Sample.api1; Sample.db1])
    ["nova.py"; "--host"; "10.0.0.2"]
  = Dispatched (main false [Sample.api1; Sample.db1] ["nova.py"; "--host"; "10.0.0.2"]) ∧
  ∃ path config prefer_private connection,
    path ∈ NOVA_CONFIG_FILES SampleConfig.proc ∧
    path_exists SampleConfig.two_files path = true ∧
    read_config SampleConfig.two_files path = Done config ∧
    config_get config "openstack" "version" = Done (version connection) ∧
    (prefer_private = true →
     config_getboolean config "openstack" "prefer_private" = Done true) ∧
    credential config SampleConfig.proc "username" "OS_USERNAME"
      = Done (username connection) ∧
    credential config SampleConfig.proc "api_key" "OS_PASSWORD"
      = Done (api_key connection) ∧
    credential config SampleConfig.proc "auth_url" "OS_AUTH_URL"
      = Done (auth_url connection) ∧
    credential config SampleConfig.proc "project_id" "OS_TENANT_NAME"
      = Done (project_id connection) ∧
    main false [Sample.api1; Sample.db1] ["nova.py"; "--host"; "10.0.0.2"]
      = main prefer_private ((λ _, [Sample.api1; Sample.db1]) connection)
          ["nova.py"; "--host"; "10.0.0.2"].
Proof.
  assert (script SampleConfig.two_files SampleConfig.proc (λ _, [Sample.api1; Sample.db1])
            ["nova.py"; "--host"; "10.0.0.2"]
          = Dispatched (main false [Sample.api1; Sample.db1]
                          ["nova.py"; "--host"; "10.0.0.2"])) as Hrun
    by (vm_compute; reflexivity).
  split; [exact Hrun|].
  exact (script_dispatched _ _ _ _ _ Hrun).
Defined.
